(** * obsidian-tag-replacer: the CSS generator plugin of [src/main.ts]

    A shallow embedding of the plugin: the string construction of
    [generateCss], its two file operations and their [try]/[catch], the
    merge of the persisted settings in [loadSettings], and the row actions
    of the settings tab.

    Text is held as [string], the sequence of bytes of its UTF-8 encoding.
    The source works on UTF-16 code units; every string operation it uses
    ([split] on "/", [includes] of "_", [slice] of the two trailing units
    of an accumulator that is empty or ends in ASCII) cuts at ASCII
    characters only, which are one unit in both encodings. The string
    values of a persisted blob, whose units [Object.assign] enumerates,
    are held as their code units. *)

From stdpp Require Import base option list strings gmap fin_maps pretty.
From Stdlib Require Import ZArith Lia.

Local Open Scope Z_scope.
Local Open Scope stdpp_scope.

(** ** Values a JavaScript computation ends with *)

(** What a [throw] carries: the engine's [TypeError] (a property read on
    [undefined]) or an error raised by the host's vault adapter. *)
Inductive js_error : Type :=
  | TypeError
  | HostError (msg : string).

Inductive result (A : Type) : Type :=
  | Ok (a : A)
  | Throw (e : js_error).
Arguments Ok {A} a.
Arguments Throw {A} e.

Global Instance result_ret : MRet result := fun A a => Ok a.
Global Instance result_bind : MBind result := fun A B f m =>
  match m with
  | Ok a => f a
  | Throw e => Throw e
  end.
Global Instance result_fmap : FMap result := fun A B f m =>
  match m with
  | Ok a => Ok (f a)
  | Throw e => Throw e
  end.

Definition is_ok {A} (m : result A) : bool :=
  match m with Ok _ => true | Throw _ => false end.

(** [for (const x of xs) body], threading the variables the body assigns
    to; a [throw] in the body leaves the loop. *)
Fixpoint for_of {A S : Type} (xs : list A) (body : A → S → result S) (s : S)
  : result S :=
  match xs with
  | [] => Ok s
  | x :: xs' => s' ← body x s; for_of xs' body s'
  end.

(** ** The string methods the plugin calls *)

Module Js.

Definition nl : string := String (Ascii.ascii_of_nat 10) "".
Definition dq : string := String (Ascii.ascii_of_nat 34) "".

(** [s.startsWith(p)] *)
Fixpoint starts_with (s p : string) : bool :=
  match p, s with
  | "", _ => true
  | String _ _, "" => false
  | String a p', String b s' =>
      if decide (a = b) then starts_with s' p' else false
  end.

(** [s.includes(sub)] *)
Fixpoint includes (s sub : string) : bool :=
  if starts_with s sub then true
  else match s with
       | "" => false
       | String _ s' => includes s' sub
       end.

(** [recv.includes(sub)] where [recv] may be [undefined]: reading a
    property of [undefined] throws a [TypeError]. *)
Definition includes_method (recv : option string) (sub : string)
  : result bool :=
  match recv with
  | Some s => Ok (includes s sub)
  | None => Throw TypeError
  end.

(** [s.split(sep)] for a separator that is not empty: [skip] counts the
    units of a matched separator still to pass over, [cur] holds the
    segment read so far, reversed. *)
Fixpoint split_go (sep : string) (skip : nat) (cur : string) (s : string)
  : list string :=
  match s with
  | "" => [String.rev cur]
  | String c s' =>
      match skip with
      | S k => split_go sep k cur s'
      | O =>
          if starts_with s sep
          then String.rev cur :: split_go sep (String.length sep - 1) "" s'
          else split_go sep O (String c cur) s'
      end
  end.

(** With the empty separator, [split] yields the units one by one. *)
Fixpoint units (s : string) : list string :=
  match s with
  | "" => []
  | String c s' => String c "" :: units s'
  end.

Definition split (s sep : string) : list string :=
  match sep with
  | "" => units s
  | _ => split_go sep O "" s
  end.

(** [s.slice(start, end)]: negative positions count from the end, and
    both are clamped to the string. *)
Definition slice (s : string) (start end_ : Z) : string :=
  let len := Z.of_nat (String.length s) in
  let from := if start <? 0 then Z.max (len + start) 0 else Z.min start len in
  let to := if end_ <? 0 then Z.max (len + end_) 0 else Z.min end_ len in
  let span := Z.max (to - from) 0 in
  String.substring (Z.to_nat from) (Z.to_nat span) s.

(** A value interpolated in a template literal: [undefined] prints as
    the nine letters of its name. *)
Definition template (v : option string) : string :=
  match v with
  | Some s => s
  | None => "undefined"
  end.

End Js.

(** ** Data model *)

Record TagIconPair : Type := { tag : string; icon : string }.

Record CssGeneratorSettings : Type := { tagIconPairs : list TagIconPair }.

(** ** [generateCss]: the string construction (lines 45 to 117) *)

Section Generator.
Import Js.

(** The array destructuring [const [category, name] = pair.tag.split("/")]
    and [cleanTag]. *)
Definition category (pair : TagIconPair) : option string :=
  split (tag pair) "/" !! 0%nat.
Definition name (pair : TagIconPair) : option string :=
  split (tag pair) "/" !! 1%nat.
Definition cleanTag (pair : TagIconPair) : string :=
  template (category pair) +:+ template (name pair).

(** First part: hide original tag text. *)
Definition suppress_body (pair : TagIconPair) (css : string) : result string :=
  let css := css +:+ ".tag[href=" +:+ dq +:+ "#" +:+ tag pair +:+ dq +:+ "]," +:+ nl in
  let css := css +:+ ".cm-tag-" +:+ cleanTag pair +:+ "," +:+ nl in
  underscore ← includes_method (name pair) "_";
  if (underscore : bool) then
    let css := css +:+ ".cm-tag-" +:+ cleanTag pair +:+ " + span.cm-hashtag," +:+ nl in
    let css := css +:+ ".cm-tag-" +:+ cleanTag pair
                   +:+ " + span.cm-hashtag + .cm-hashtag," +:+ nl in
    Ok css
  else Ok css.

Definition suppress_rule : string :=
  " {" +:+ nl +:+ "  font-size: 0px;" +:+ nl +:+ "  padding: 0;" +:+ nl
  +:+ "}" +:+ nl +:+ nl.

(** Second part: font size of the [:after] pseudo-elements. *)
Definition after_body (pair : TagIconPair) (css : string) : result string :=
  let css := css +:+ ".tag[href=" +:+ dq +:+ "#" +:+ tag pair +:+ dq +:+ "]:after," +:+ nl in
  let css := css +:+ ".cm-tag-" +:+ cleanTag pair +:+ ":after," +:+ nl in
  underscore ← includes_method (name pair) "_";
  if (underscore : bool) then
    let css := css +:+ ".cm-tag-" +:+ cleanTag pair +:+ " + span.cm-hashtag:after," +:+ nl in
    let css := css +:+ ".cm-tag-" +:+ cleanTag pair
                   +:+ " + span.cm-hashtag + .cm-hashtag:after," +:+ nl in
    Ok css
  else Ok css.

Definition size_rule : string :=
  " {" +:+ nl +:+ "  font-size: var(--font-text-size);" +:+ nl
  +:+ "}" +:+ nl +:+ nl.

(** Third part: the same under the editor's active line. *)
Definition active_body (pair : TagIconPair) (css : string) : result string :=
  let css := css +:+ ".cm-active .tag[href=" +:+ dq +:+ "#" +:+ tag pair +:+ dq +:+ "]," +:+ nl in
  let css := css +:+ ".cm-active .cm-tag-" +:+ cleanTag pair +:+ "," +:+ nl in
  underscore ← includes_method (name pair) "_";
  if (underscore : bool) then
    let css := css +:+ ".cm-active .cm-tag-" +:+ cleanTag pair
                   +:+ " + span.cm-hashtag," +:+ nl in
    let css := css +:+ ".cm-active .cm-tag-" +:+ cleanTag pair
                   +:+ " + span.cm-hashtag + .cm-hashtag," +:+ nl in
    Ok css
  else Ok css.

(** Fourth part: one rule per pair, holding the icon. *)
Definition icon_body (pair : TagIconPair) (css : string) : result string :=
  let css := css +:+ ".tag[href=" +:+ dq +:+ "#" +:+ tag pair +:+ dq +:+ "]:after," +:+ nl in
  let css := css +:+ ".cm-hashtag-begin.cm-tag-" +:+ cleanTag pair +:+ ":after {" +:+ nl in
  let css := css +:+ "  background-color: rgba(162, 93, 53, 0.1);" +:+ nl in
  let css := css +:+ "  border: solid 1px rgba(209, 209, 209, 0.1);" +:+ nl in
  let css := css +:+ "  border-radius: 3px;" +:+ nl in
  let css := css +:+ "  content: " +:+ dq +:+ icon pair +:+ dq +:+ ";" +:+ nl in
  let css := css +:+ "}" +:+ nl +:+ nl in
  Ok css.

(** The value of [css] after each part, started from the accumulator
    the part finds. *)
Definition suppress_part (pairs : list TagIconPair) (css : string) : result string :=
  css ← for_of pairs suppress_body css;
  let css := slice css 0 (-2) in
  Ok (css +:+ suppress_rule).

Definition after_part (pairs : list TagIconPair) (css : string) : result string :=
  css ← for_of pairs after_body css;
  let css := slice css 0 (-2) in
  Ok (css +:+ size_rule).

Definition active_part (pairs : list TagIconPair) (css : string) : result string :=
  css ← for_of pairs active_body css;
  let css := slice css 0 (-2) in
  Ok (css +:+ size_rule).

Definition icon_part (pairs : list TagIconPair) (css : string) : result string :=
  for_of pairs icon_body css.

Definition generateCss_string (settings : CssGeneratorSettings) : result string :=
  let css := "" in
  css ← suppress_part (tagIconPairs settings) css;
  css ← after_part (tagIconPairs settings) css;
  css ← active_part (tagIconPairs settings) css;
  icon_part (tagIconPairs settings) css.

End Generator.

(** ** [generateCss]: the two file operations and their [try]/[catch] *)

Inductive adapter_call : Type :=
  | CallMkdir (path : string)
  | CallWrite (path data : string).

Inductive console_entry : Type :=
  | ConsoleLog (msg : string)
  | ConsoleError (msg : string) (error : js_error).

Record plugin : Type := { settings : CssGeneratorSettings; configDir : string }.

Section Host.
(** The host: the state of the vault behind [this.app.vault.adapter], the
    two adapter methods the plugin awaits, and [join] of the [path]
    module. *)
Context {vault : Type}.
Variable join : string → string → string.
Variable adapter_mkdir : string → vault → result unit * vault.
Variable adapter_write : string → string → vault → result unit * vault.

(** The vault, the adapter calls made so far and the console. *)
Record world : Type := World {
  files : vault;
  calls : list adapter_call;
  console : list console_entry
}.

Definition io (A : Type) : Type := world → result A * world.

Definition io_ret {A} (a : A) : io A := fun w => (Ok a, w).
Definition io_bind {A B} (m : io A) (k : A → io B) : io B := fun w =>
  match m w with
  | (Ok a, w') => k a w'
  | (Throw e, w') => (Throw e, w')
  end.
Definition lift {A} (r : result A) : io A := fun w => (r, w).

(** [try { body } catch (error) { handler }] *)
Definition try_catch {A} (body : io A) (handler : js_error → io A) : io A :=
  fun w =>
    match body w with
    | (Ok a, w') => (Ok a, w')
    | (Throw e, w') => handler e w'
    end.

Definition mkdir (path : string) : io unit := fun w =>
  let '(r, v) := adapter_mkdir path (files w) in
  (r, World v (calls w ++ [CallMkdir path]) (console w)).

Definition write (path data : string) : io unit := fun w =>
  let '(r, v) := adapter_write path data (files w) in
  (r, World v (calls w ++ [CallWrite path data]) (console w)).

Definition console_log (msg : string) : io unit := fun w =>
  (Ok (), World (files w) (calls w) (console w ++ [ConsoleLog msg])).

Definition console_error (msg : string) (error : js_error) : io unit := fun w =>
  (Ok (), World (files w) (calls w) (console w ++ [ConsoleError msg error])).

Definition snippetsFolder (this : plugin) : string :=
  join (configDir this) "snippets".
Definition cssPath (this : plugin) : string :=
  join (snippetsFolder this) "tags.css".

Definition generateCss (this : plugin) : io unit :=
  io_bind (lift (generateCss_string (settings this))) (fun css =>
  try_catch
    (io_bind (mkdir (snippetsFolder this)) (fun _ =>
     io_bind (write (cssPath this) css) (fun _ =>
     console_log "CSS has been written to tags.css in the snippets folder")))
    (fun error => console_error "Error writing CSS file:" error)).

End Host.

(** ** [loadSettings]: the persisted blob merged over the defaults *)

Module Persist.

(** The values [loadData] can resolve to: a parsed JSON document, or
    nothing at all. A string value is the sequence of its UTF-16 code
    units; the payload of a number plays no part in a merge. A property
    key is held as [string] and only ever compared with another key. *)
#[warnings="-register-all"] Inductive value : Type :=
  | VUndefined
  | VNull
  | VBool (b : bool)
  | VNumber (n : Z)
  | VString (units : list N)
  | VArray (elems : list value)
  | VObject (props : gmap string value).

Definition indexed (vs : list value) : gmap string value :=
  list_to_map (imap (fun i v => (pretty i, v)) vs).

(** The own enumerable properties [Object.assign] reads from a source:
    none for [undefined], [null], booleans and numbers; the indices of a
    string, each holding one code unit, or of an array; the properties of
    an object. *)
Definition own_props (source : value) : gmap string value :=
  match source with
  | VString units => indexed ((fun u => VString [u]) <$> units)
  | VArray elems => indexed elems
  | VObject props => props
  | _ => ∅
  end.

(** What an object inherits from: [Object.prototype], nothing, or a
    parsed object or array that the [__proto__] setter installed. *)
#[warnings="-register-all"] Inductive prototype : Type :=
  | ObjectPrototype
  | NullPrototype
  | PersistedObject (props : gmap string value)
  | PersistedArray (elems : list value).

(** An ordinary object: its prototype and its own properties. *)
Record object : Type := Object {
  proto : prototype;
  own : gmap string value
}.

(** Whether a [__proto__] looked up from this prototype upwards ends at
    the accessor of [Object.prototype]: a parsed object inherits from
    [Object.prototype] and hides the accessor when it has a [__proto__]
    property of its own; an array never has one. *)
Definition reaches_setter (p : prototype) : bool :=
  match p with
  | ObjectPrototype => true
  | NullPrototype => false
  | PersistedObject props => bool_decide (props !! "__proto__" = None)
  | PersistedArray _ => true
  end.

(** The setter of [Object.prototype.__proto__]: an object or [null]
    becomes the prototype, any other value is ignored. *)
Definition set_prototype (v : value) (o : object) : object :=
  match v with
  | VObject props => Object (PersistedObject props) (own o)
  | VArray elems => Object (PersistedArray elems) (own o)
  | VNull => Object NullPrototype (own o)
  | _ => o
  end.

(** [o[key] = v]. Every property met on the way up is a writable data
    property except the [__proto__] accessor, so the assignment creates or
    overwrites an own property unless the key is [__proto__], the object
    has no such own property and the accessor is reached. *)
Definition set_property (key : string) (v : value) (o : object) : object :=
  if decide (key = "__proto__") then
    if bool_decide (own o !! key = None) then
      if reaches_setter (proto o) then set_prototype v o
      else Object (proto o) (<[key := v]> (own o))
    else Object (proto o) (<[key := v]> (own o))
  else Object (proto o) (<[key := v]> (own o)).

(** [Object.assign(target, ...sources)]: the properties of each source
    are assigned to the target one by one, source after source.
    ([assign_source] below shows that the order of the keys within a
    source does not matter.) *)
Definition assign (target : object) (sources : list value) : object :=
  foldl (fun t source => map_fold set_property t (own_props source))
        target sources.

Definition DEFAULT_SETTINGS : value :=
  VObject {[ "tagIconPairs" := VArray [] ]}.

(** [this.settings] after [loadSettings], [data] being what [loadData]
    resolved to; the target is the fresh object literal. *)
Definition loadSettings (data : value) : object :=
  assign (Object ObjectPrototype ∅) [DEFAULT_SETTINGS; data].

(** [data.tagIconPairs] as the persisted value itself holds it: only an
    object has such a property. *)
Definition persisted_field (data : value) (key : string) : option value :=
  match data with
  | VObject props => props !! key
  | _ => None
  end.

End Persist.

(** ** The settings tab: the row actions on [tagIconPairs] *)

Module Tab.

(** A JavaScript array: a cell holds a pair or [undefined]. *)
Abbreviation array := (list (option TagIconPair)).

Definition of_pairs (pairs : list TagIconPair) : array := Some <$> pairs.

(** [arr[i]]: [undefined] outside the array. *)
Definition get (arr : array) (i : nat) : option TagIconPair :=
  mjoin (arr !! i).

(** [arr[i] = v]: a write past the end extends the array, leaving the
    cells in between empty. *)
Definition set (arr : array) (i : nat) (v : option TagIconPair) : array :=
  if decide (i < length arr)%nat then <[i := v]> arr
  else arr ++ replicate (i - length arr) None ++ [v].

(** The "+" buttons: [push({ tag: "", icon: "" })]. *)
Definition add_row (arr : array) : array :=
  arr ++ [Some {| tag := ""; icon := "" |}].

(** The "Move up" button of row [index]. *)
Definition move_up (index : nat) (arr : array) : array :=
  if decide (0 < index)%nat then
    let temp := get arr (index - 1) in
    let arr := set arr (index - 1) (get arr index) in
    let arr := set arr index temp in
    arr
  else arr.

(** The "Move down" button of row [index]. *)
Definition move_down (index : nat) (arr : array) : array :=
  if decide (Z.of_nat index < Z.of_nat (length arr) - 1) then
    let temp := get arr (index + 1) in
    let arr := set arr (index + 1) (get arr index) in
    let arr := set arr index temp in
    arr
  else arr.

(** [arr.splice(start, deleteCount)] for a [start] that is not negative:
    both are clamped to what the array holds. *)
Definition splice (arr : array) (start deleteCount : nat) : array :=
  let start := Nat.min start (length arr) in
  let deleteCount := Nat.min deleteCount (length arr - start)%nat in
  take start arr ++ drop (start + deleteCount)%nat arr.

(** The "Remove" button of row [index]: [splice(index, 1)]. *)
Definition remove_row (index : nat) (arr : array) : array :=
  splice arr index 1.

(** The text fields of row [index]: [arr[index].tag = value] and
    [arr[index].icon = value]; assigning to a property of [undefined]
    throws. *)
Definition set_tag (index : nat) (value : string) (arr : array) : result array :=
  match get arr index with
  | Some row => Ok (<[index := Some {| tag := value; icon := icon row |}]> arr)
  | None => Throw TypeError
  end.

Definition set_icon (index : nat) (value : string) (arr : array) : result array :=
  match get arr index with
  | Some row => Ok (<[index := Some {| tag := tag row; icon := value |}]> arr)
  | None => Throw TypeError
  end.

End Tab.

(** ** Notions the properties are stated with *)

Definition join_all (segs : list string) : string :=
  foldr String.append "" segs.

(** The text one run of a loop body adds for a pair: what it leaves in
    an empty accumulator (nothing when it throws). *)
Definition emitted (body : TagIconPair → string → result string)
    (pair : TagIconPair) : string :=
  match body pair "" with
  | Ok s => s
  | Throw _ => ""
  end.

(** A body that only appends to the accumulator. *)
Definition appends (body : TagIconPair → string → result string) : Prop :=
  ∀ pair css, body pair css = String.append css <$> body pair "".

(** The pairs on which the three selector loops do not throw. *)
Definition has_name (pair : TagIconPair) : Prop := is_Some (name pair).

(** The output as the four loops lay it out, from the texts emitted pair
    by pair. *)
Definition layout (s1 s2 s3 b4 : list string) : string :=
  Js.slice (join_all s1) 0 (-2) +:+ suppress_rule
  +:+ Js.slice (join_all s2) 0 (-2) +:+ size_rule
  +:+ Js.slice (join_all s3) 0 (-2) +:+ size_rule
  +:+ join_all b4.

(** The list with the elements at [i] and [j] exchanged. *)
Definition transpose {A} (i j : nat) (l : list A) : list A :=
  match l !! i, l !! j with
  | Some a, Some b => <[j := a]> (<[i := b]> l)
  | _, _ => l
  end.

(** The adapter calls of one run of [generateCss]: those made after the
    ones the world already records. *)
Definition calls_of {vault : Type} (join : string → string → string)
    (adapter_mkdir : string → vault → result unit * vault)
    (adapter_write : string → string → vault → result unit * vault)
    (this : plugin) (w : world (vault := vault)) : list adapter_call :=
  drop (length (calls w))
       (calls (generateCss join adapter_mkdir adapter_write this w).2).

(** A host for the examples: a vault whose state is the list of the files
    written, and a directory that cannot be created under a read-only
    configuration directory. *)
Module ExampleHost.

Definition join (a b : string) : string := a +:+ "/" +:+ b.

Definition adapter_mkdir (p : string) (v : list (string * string))
  : result unit * list (string * string) :=
  if Js.starts_with p "/readonly" then (Throw (HostError "EACCES"), v)
  else (Ok (), v).

Definition adapter_write (p data : string) (v : list (string * string))
  : result unit * list (string * string) :=
  (Ok (), (p, data) :: v).

Definition pairs : list TagIconPair := [{| tag := "a/b"; icon := "X" |}].

Definition css : string :=
  layout (emitted suppress_body <$> pairs) (emitted after_body <$> pairs)
         (emitted active_body <$> pairs) (emitted icon_body <$> pairs).

Definition this (dir : string) : plugin :=
  {| settings := {| tagIconPairs := pairs |}; configDir := dir |}.

Definition start : world (vault := list (string * string)) :=
  World [] [] [].

Definition run (dir : string) : io unit :=
  generateCss join adapter_mkdir adapter_write (this dir).

End ExampleHost.

(** A text that a comma and a newline close. *)
Definition ends_comma_nl (s : string) : Prop :=
  ∃ z, s = z +:+ "," +:+ Js.nl.

(** A key that starts with a decimal digit, as every index key does. *)
Definition digit_first (s : string) : Prop :=
  ∃ d rest, s = String (pretty_N_char d) rest.

(** * Properties *)

(** ** Strings *)

Section StringFacts.
Import Js.

Lemma app_nil_l (s : string) : "" +:+ s = s.
Proof. reflexivity. Qed.

Lemma app_cons (c : Ascii.ascii) (a b : string) :
  String c a +:+ b = String c (a +:+ b).
Proof. reflexivity. Qed.

Lemma app_nil_r (s : string) : s +:+ "" = s.
Proof. induction s as [|c s IH]; [done|]. by rewrite app_cons, IH. Qed.

Lemma app_assoc (a b c : string) : (a +:+ b) +:+ c = a +:+ b +:+ c.
Proof. induction a as [|x a IH]; [done|]. by rewrite !app_cons, IH. Qed.

Lemma length_app (a b : string) :
  String.length (a +:+ b) = (String.length a + String.length b)%nat.
Proof. induction a as [|x a IH]; [done|]. rewrite app_cons. simpl. by rewrite IH. Qed.

Lemma substring_0_all (s : string) : String.substring 0 (String.length s) s = s.
Proof. induction s as [|c s IH]; [done|]. simpl. by rewrite IH. Qed.

Lemma substring_0_app (a b : string) (m : nat) :
  String.substring 0 (String.length a + m) (a +:+ b)
  = a +:+ String.substring 0 m b.
Proof.
  induction a as [|x a IH]; [done|].
  rewrite !app_cons. simpl. by rewrite IH.
Qed.

Lemma slice_0_m2 (s : string) :
  slice s 0 (-2) = String.substring 0 (String.length s - 2) s.
Proof. unfold slice. simpl. f_equal; lia. Qed.

(** Cutting the last two units only touches a tail of two units or more. *)
Lemma slice_app (a b : string) :
  (2 ≤ String.length b)%nat →
  slice (a +:+ b) 0 (-2) = a +:+ slice b 0 (-2).
Proof.
  intros Hb. rewrite !slice_0_m2, length_app.
  replace (String.length a + String.length b - 2)%nat
    with (String.length a + (String.length b - 2))%nat by lia.
  apply substring_0_app.
Qed.

Lemma slice_comma_nl (z : string) : slice (z +:+ "," +:+ nl) 0 (-2) = z.
Proof.
  rewrite slice_app by (simpl; lia).
  change (slice ("," +:+ nl) 0 (-2)) with "". apply app_nil_r.
Qed.

Lemma starts_with_app (p s : string) : starts_with (p +:+ s) p = true.
Proof.
  induction p as [|c p IH]; [by destruct s|].
  rewrite app_cons. simpl. by rewrite decide_True.
Qed.

Lemma includes_unfold (s sub : string) :
  includes s sub
  = if starts_with s sub then true
    else match s with "" => false | String _ s' => includes s' sub end.
Proof. by destruct s. Qed.

Lemma includes_here (sub b : string) : includes (sub +:+ b) sub = true.
Proof. by rewrite includes_unfold, starts_with_app. Qed.

Lemma includes_app (a sub b : string) : includes (a +:+ sub +:+ b) sub = true.
Proof.
  induction a as [|c a IH]; [rewrite app_nil_l; apply includes_here|].
  rewrite includes_unfold, app_cons, IH. by destruct (starts_with _ _).
Qed.

End StringFacts.

(** ** The loops of the generator *)

Section GeneratorFacts.
Import Js.

Lemma join_all_app (xs ys : list string) :
  join_all (xs ++ ys) = join_all xs +:+ join_all ys.
Proof.
  induction xs as [|x xs IH]; [done|].
  simpl. by rewrite IH, app_assoc.
Qed.

Ltac body_cases p :=
  destruct (name p) as [n|]; simpl; [destruct (includes n "_"); simpl|].

Lemma suppress_body_appends : appends suppress_body.
Proof.
  intros p css. unfold suppress_body. body_cases p;
    by rewrite ?app_assoc.
Qed.

Lemma after_body_appends : appends after_body.
Proof.
  intros p css. unfold after_body. body_cases p;
    by rewrite ?app_assoc.
Qed.

Lemma active_body_appends : appends active_body.
Proof.
  intros p css. unfold active_body. body_cases p;
    by rewrite ?app_assoc.
Qed.

Lemma icon_body_appends : appends icon_body.
Proof.
  intros p css. unfold icon_body. simpl. by rewrite ?app_assoc.
Qed.

Section Loop.
Variable body : TagIconPair → string → result string.
Hypothesis body_appends : appends body.

Lemma for_of_emitted (pairs : list TagIconPair) (css : string) :
  Forall (λ p, is_ok (body p "") = true) pairs →
  for_of pairs body css = Ok (css +:+ join_all (emitted body <$> pairs)).
Proof.
  intros Hall. revert css.
  induction Hall as [|p pairs Hp _ IH]; intros css; simpl.
  - by rewrite app_nil_r.
  - rewrite body_appends. unfold emitted.
    destruct (body p "") as [s|]; [|done]. simpl.
    by rewrite IH, app_assoc.
Qed.

Lemma for_of_ok (pairs : list TagIconPair) (css out : string) :
  for_of pairs body css = Ok out →
  Forall (λ p, is_ok (body p "") = true) pairs.
Proof.
  revert css. induction pairs as [|p pairs IH]; intros css; simpl.
  - by constructor.
  - rewrite body_appends.
    destruct (body p "") as [s|] eqn:E; simpl; [|done].
    intros H. constructor; [by rewrite E | by eapply IH].
Qed.
End Loop.

Lemma Forall_ok_iff (body : TagIconPair → string → result string)
    (pairs : list TagIconPair) :
  (∀ p, is_ok (body p "") = true ↔ has_name p) →
  Forall (λ p, is_ok (body p "") = true) pairs ↔ Forall has_name pairs.
Proof. intros H. apply Forall_iff. intros p. apply H. Qed.

Lemma suppress_body_ok (p : TagIconPair) :
  is_ok (suppress_body p "") = true ↔ has_name p.
Proof.
  unfold suppress_body, has_name. body_cases p; split; try done;
    try (by intros _; eexists); by intros [? ?].
Qed.

Lemma after_body_ok (p : TagIconPair) :
  is_ok (after_body p "") = true ↔ has_name p.
Proof.
  unfold after_body, has_name. body_cases p; split; try done;
    try (by intros _; eexists); by intros [? ?].
Qed.

Lemma active_body_ok (p : TagIconPair) :
  is_ok (active_body p "") = true ↔ has_name p.
Proof.
  unfold active_body, has_name. body_cases p; split; try done;
    try (by intros _; eexists); by intros [? ?].
Qed.

Lemma icon_body_ok (p : TagIconPair) : is_ok (icon_body p "") = true.
Proof. done. Qed.

(** What a selector loop emits for a pair is at least the two units the
    [slice] after the loop cuts. *)
Ltac two_units :=
  rewrite ?length_app; simpl; lia.

Lemma suppress_emitted_length (p : TagIconPair) :
  has_name p → (2 ≤ String.length (emitted suppress_body p))%nat.
Proof.
  unfold emitted, suppress_body, has_name.
  body_cases p; intros [? ?]; try done; two_units.
Qed.

Lemma after_emitted_length (p : TagIconPair) :
  has_name p → (2 ≤ String.length (emitted after_body p))%nat.
Proof.
  unfold emitted, after_body, has_name.
  body_cases p; intros [? ?]; try done; two_units.
Qed.

Lemma active_emitted_length (p : TagIconPair) :
  has_name p → (2 ≤ String.length (emitted active_body p))%nat.
Proof.
  unfold emitted, active_body, has_name.
  body_cases p; intros [? ?]; try done; two_units.
Qed.

Section SelectorLoop.
Variable body : TagIconPair → string → result string.
Variable rule : string.
Hypothesis body_appends : appends body.
Hypothesis body_ok : ∀ p, is_ok (body p "") = true ↔ has_name p.
Hypothesis body_length :
  ∀ p, has_name p → (2 ≤ String.length (emitted body p))%nat.

Lemma join_all_length (pairs : list TagIconPair) :
  pairs ≠ [] → Forall has_name pairs →
  (2 ≤ String.length (join_all (emitted body <$> pairs)))%nat.
Proof.
  intros Hne Hall. destruct Hall as [|p pairs Hp _]; [done|].
  simpl. rewrite length_app. specialize (body_length p Hp). lia.
Qed.

(** On a list that is not empty the [slice] after a selector loop
    stays within the selectors of this loop. *)
Lemma selector_part_layout (pairs : list TagIconPair) (css : string) :
  pairs ≠ [] → Forall has_name pairs →
  (css' ← for_of pairs body css; Ok (slice css' 0 (-2) +:+ rule))
  = Ok (css +:+ slice (join_all (emitted body <$> pairs)) 0 (-2) +:+ rule).
Proof.
  intros Hne Hall.
  rewrite (for_of_emitted body body_appends)
    by (by apply Forall_ok_iff). simpl.
  by rewrite slice_app, app_assoc by by apply join_all_length.
Qed.
End SelectorLoop.

Lemma suppress_part_layout (pairs : list TagIconPair) (css : string) :
  pairs ≠ [] → Forall has_name pairs →
  suppress_part pairs css
  = Ok (css +:+ slice (join_all (emitted suppress_body <$> pairs)) 0 (-2)
            +:+ suppress_rule).
Proof.
  apply selector_part_layout;
    auto using suppress_body_appends, suppress_body_ok, suppress_emitted_length.
Qed.

Lemma after_part_layout (pairs : list TagIconPair) (css : string) :
  pairs ≠ [] → Forall has_name pairs →
  after_part pairs css
  = Ok (css +:+ slice (join_all (emitted after_body <$> pairs)) 0 (-2)
            +:+ size_rule).
Proof.
  apply selector_part_layout;
    auto using after_body_appends, after_body_ok, after_emitted_length.
Qed.

Lemma active_part_layout (pairs : list TagIconPair) (css : string) :
  pairs ≠ [] → Forall has_name pairs →
  active_part pairs css
  = Ok (css +:+ slice (join_all (emitted active_body <$> pairs)) 0 (-2)
            +:+ size_rule).
Proof.
  apply selector_part_layout;
    auto using active_body_appends, active_body_ok, active_emitted_length.
Qed.

Lemma icon_part_layout (pairs : list TagIconPair) (css : string) :
  icon_part pairs css = Ok (css +:+ join_all (emitted icon_body <$> pairs)).
Proof.
  apply for_of_emitted; [apply icon_body_appends|].
  apply Forall_forall. intros p _. apply icon_body_ok.
Qed.

(** The generator throws exactly when some pair has no name segment. *)
Lemma generateCss_string_ok (pairs : list TagIconPair) (out : string) :
  generateCss_string {| tagIconPairs := pairs |} = Ok out →
  Forall has_name pairs.
Proof.
  unfold generateCss_string, suppress_part. simpl.
  destruct (for_of pairs suppress_body "") as [css|] eqn:E; [|done].
  intros _. apply (Forall_ok_iff suppress_body); [apply suppress_body_ok|].
  eapply for_of_ok; [apply suppress_body_appends | exact E].
Qed.

Lemma generateCss_string_layout (pairs : list TagIconPair) :
  pairs ≠ [] → Forall has_name pairs →
  generateCss_string {| tagIconPairs := pairs |}
  = Ok (layout (emitted suppress_body <$> pairs) (emitted after_body <$> pairs)
               (emitted active_body <$> pairs) (emitted icon_body <$> pairs)).
Proof.
  intros Hne Hall. unfold generateCss_string, layout. simpl.
  rewrite suppress_part_layout by done. simpl.
  rewrite after_part_layout by done. simpl.
  rewrite active_part_layout by done. simpl.
  rewrite icon_part_layout. by rewrite !app_assoc.
Qed.

Lemma suppress_loop_error (pairs : list TagIconPair) (css : string)
    (e : js_error) :
  for_of pairs suppress_body css = Throw e → e = TypeError.
Proof.
  revert css. induction pairs as [|p pairs IH]; intros css; simpl; [done|].
  destruct (suppress_body p css) as [css'|e'] eqn:E; simpl; [apply IH|].
  intros [= <-]. unfold suppress_body in E.
  destruct (name p) as [n|]; simpl in E; [|by injection E].
  by destruct (includes n "_").
Qed.

Lemma generateCss_string_throws (pairs : list TagIconPair) :
  ¬ Forall has_name pairs →
  generateCss_string {| tagIconPairs := pairs |} = Throw TypeError.
Proof.
  intros Hnot. unfold generateCss_string, suppress_part. simpl.
  destruct (for_of pairs suppress_body "") as [css|e] eqn:E; simpl.
  - destruct Hnot.
    apply (Forall_ok_iff suppress_body); [apply suppress_body_ok|].
    eapply for_of_ok; [apply suppress_body_appends | exact E].
  - by rewrite (suppress_loop_error _ _ _ E).
Qed.

(** *** Transpositions *)

Lemma transpose_fmap {A B} (f : A → B) (i j : nat) (l : list A) :
  transpose i j (f <$> l) = f <$> transpose i j l.
Proof.
  unfold transpose. rewrite !list_lookup_fmap.
  destruct (l !! i), (l !! j); simpl; by rewrite ?list_fmap_insert.
Qed.

Lemma transpose_length {A} (i j : nat) (l : list A) :
  length (transpose i j l) = length l.
Proof.
  unfold transpose. destruct (l !! i), (l !! j); by rewrite ?length_insert.
Qed.

Lemma transpose_Forall {A} (P : A → Prop) (i j : nat) (l : list A) :
  Forall P l → Forall P (transpose i j l).
Proof.
  intros Hall. unfold transpose.
  destruct (l !! i) as [a|] eqn:Ei, (l !! j) as [b|] eqn:Ej; try done.
  apply Forall_insert; [apply Forall_insert|]; [done | ..];
    eapply Forall_lookup_1; eauto.
Qed.

Lemma transpose_lookup {A} (i j : nat) (l : list A) :
  (i < length l)%nat → (j < length l)%nat →
  transpose i j l !! i = l !! j ∧ transpose i j l !! j = l !! i
  ∧ ∀ k, k ≠ i → k ≠ j → transpose i j l !! k = l !! k.
Proof.
  intros Hi Hj. unfold transpose.
  destruct (lookup_lt_is_Some_2 l i Hi) as [a Ea].
  destruct (lookup_lt_is_Some_2 l j Hj) as [b Eb].
  rewrite Ea, Eb. split_and!.
  - destruct (decide (i = j)) as [->|Hne].
    + rewrite list_lookup_insert_eq by (by rewrite length_insert). congruence.
    + rewrite list_lookup_insert_ne by done.
      by rewrite list_lookup_insert_eq.
  - by rewrite list_lookup_insert_eq by (by rewrite length_insert).
  - intros k Hki Hkj. by rewrite !list_lookup_insert_ne.
Qed.

(** *** A selector inside a block *)

Lemma includes_in_block (before head target after rule : string) :
  includes
    (slice (before +:+ (head +:+ target +:+ "," +:+ nl) +:+ after) 0 (-2)
     +:+ rule) target = true.
Proof.
  replace (before +:+ (head +:+ target +:+ "," +:+ nl) +:+ after)
    with ((before +:+ head +:+ target) +:+ (("," +:+ nl) +:+ after))
    by (by rewrite ?app_assoc).
  rewrite slice_app by (rewrite length_app; simpl; lia).
  rewrite ?app_assoc, <- (app_assoc before head).
  apply includes_app.
Qed.

Lemma join_all_split (f : TagIconPair → string) (pair : TagIconPair)
    (pairs : list TagIconPair) :
  pair ∈ pairs →
  ∃ before after, join_all (f <$> pairs) = before +:+ f pair +:+ after.
Proof.
  intros (l1 & l2 & ->)%list_elem_of_split.
  exists (join_all (f <$> l1)), (join_all (f <$> l2)).
  by rewrite fmap_app, join_all_app.
Qed.

Section Underscore.
Variables (pair : TagIconPair) (c n : string) (rest : list string).
Hypothesis tag_split : split (tag pair) "/" = c :: n :: rest.
Hypothesis underscore : includes n "_" = true.

Ltac run body :=
  unfold emitted, body, cleanTag, category, name;
  rewrite tag_split; simpl; rewrite underscore; simpl;
  by rewrite ?app_assoc.

Lemma suppress_emitted_underscore :
  emitted suppress_body pair
  = (".tag[href=" +:+ dq +:+ "#" +:+ tag pair +:+ dq +:+ "]," +:+ nl
     +:+ ".cm-tag-" +:+ c +:+ n +:+ "," +:+ nl)
    +:+ (".cm-tag-" +:+ c +:+ n +:+ " + span.cm-hashtag," +:+ nl
         +:+ ".cm-tag-" +:+ c +:+ n +:+ " + span.cm-hashtag + .cm-hashtag")
    +:+ "," +:+ nl.
Proof. run suppress_body. Qed.

Lemma after_emitted_underscore :
  emitted after_body pair
  = (".tag[href=" +:+ dq +:+ "#" +:+ tag pair +:+ dq +:+ "]:after," +:+ nl
     +:+ ".cm-tag-" +:+ c +:+ n +:+ ":after," +:+ nl)
    +:+ (".cm-tag-" +:+ c +:+ n +:+ " + span.cm-hashtag:after," +:+ nl
         +:+ ".cm-tag-" +:+ c +:+ n
         +:+ " + span.cm-hashtag + .cm-hashtag:after")
    +:+ "," +:+ nl.
Proof. run after_body. Qed.

Lemma active_emitted_underscore :
  emitted active_body pair
  = (".cm-active .tag[href=" +:+ dq +:+ "#" +:+ tag pair +:+ dq +:+ "]," +:+ nl
     +:+ ".cm-active .cm-tag-" +:+ c +:+ n +:+ "," +:+ nl)
    +:+ (".cm-active .cm-tag-" +:+ c +:+ n +:+ " + span.cm-hashtag," +:+ nl
         +:+ ".cm-active .cm-tag-" +:+ c +:+ n
         +:+ " + span.cm-hashtag + .cm-hashtag")
    +:+ "," +:+ nl.
Proof. run active_body. Qed.
End Underscore.

End GeneratorFacts.

(** ** The generated stylesheet *)

Section GeneratorClaims.
Import Js.

(** C1 (what the code does on the empty list): with no pair at all,
    [generateCss] builds three rule bodies that follow one another with
    no selector in front of any of them; the [slice] after the second
    and the third loop cuts the blank line that closed the rule before
    it. The stylesheet is neither empty nor made of well-formed rules. *)
Theorem generateCss_string_empty :
  generateCss_string {| tagIconPairs := [] |}
  = Ok (" {" +:+ nl +:+ "  font-size: 0px;" +:+ nl +:+ "  padding: 0;" +:+ nl
        +:+ "} {" +:+ nl +:+ "  font-size: var(--font-text-size);" +:+ nl
        +:+ "} {" +:+ nl +:+ "  font-size: var(--font-text-size);" +:+ nl
        +:+ "}" +:+ nl +:+ nl).
Proof. by vm_compute. Qed.

(** C2 (what the code does on a tag without separator): for the tag
    "inbox", and for the empty tag of a row the "+" button has just
    added, [name] is [undefined] and [name.includes] throws a
    [TypeError]: the generation fails instead of emitting a degenerate
    selector. *)
Theorem generateCss_string_no_separator :
  generateCss_string {| tagIconPairs := [{| tag := "inbox"; icon := "X" |}] |}
  = Throw TypeError
  ∧ Tab.add_row (Tab.of_pairs []) = Tab.of_pairs [{| tag := ""; icon := "" |}]
  ∧ generateCss_string {| tagIconPairs := [{| tag := ""; icon := "" |}] |}
    = Throw TypeError.
Proof. by vm_compute. Qed.

(** C3: for the pairs a/b with icon X and c/d with icon Y, the suppress
    block is the four selectors, in the order of the list and joined by a
    comma and a newline, followed at once by the body that sets
    font-size: 0px and padding: 0; the output starts with this block. *)
Theorem suppress_block_two_pairs :
  let pairs := [{| tag := "a/b"; icon := "X" |}; {| tag := "c/d"; icon := "Y" |}] in
  let selectors :=
    ".tag[href=" +:+ dq +:+ "#a/b" +:+ dq +:+ "]," +:+ nl
    +:+ ".cm-tag-ab," +:+ nl
    +:+ ".tag[href=" +:+ dq +:+ "#c/d" +:+ dq +:+ "]," +:+ nl
    +:+ ".cm-tag-cd" in
  let body :=
    " {" +:+ nl +:+ "  font-size: 0px;" +:+ nl +:+ "  padding: 0;" +:+ nl
    +:+ "}" +:+ nl +:+ nl in
  suppress_part pairs "" = Ok (selectors +:+ body)
  ∧ ∃ rest,
      generateCss_string {| tagIconPairs := pairs |}
      = Ok (selectors +:+ body +:+ rest).
Proof.
  split; [by vm_compute|].
  eexists. cbv. reflexivity.
Qed.

(** C4: for the single pair task/inbox with the inbox-tray icon, the
    suppress block holds the selectors .tag[href="#task/inbox"] and
    .cm-tag-taskinbox, and the output ends with the rule of this pair,
    whose body holds the content declaration with the icon. *)
Theorem single_pair_stylesheet :
  let pairs := [{| tag := "task/inbox"; icon := "📥" |}] in
  let suppress :=
    ".tag[href=" +:+ dq +:+ "#task/inbox" +:+ dq +:+ "]," +:+ nl
    +:+ ".cm-tag-taskinbox"
    +:+ " {" +:+ nl +:+ "  font-size: 0px;" +:+ nl +:+ "  padding: 0;" +:+ nl
    +:+ "}" +:+ nl +:+ nl in
  let icon_rule :=
    ".tag[href=" +:+ dq +:+ "#task/inbox" +:+ dq +:+ "]:after," +:+ nl
    +:+ ".cm-hashtag-begin.cm-tag-taskinbox:after {" +:+ nl
    +:+ "  background-color: rgba(162, 93, 53, 0.1);" +:+ nl
    +:+ "  border: solid 1px rgba(209, 209, 209, 0.1);" +:+ nl
    +:+ "  border-radius: 3px;" +:+ nl
    +:+ "  content: " +:+ dq +:+ "📥" +:+ dq +:+ ";" +:+ nl
    +:+ "}" +:+ nl +:+ nl in
  suppress_part pairs "" = Ok suppress
  ∧ icon_part pairs "" = Ok icon_rule
  ∧ ∃ sizes,
      generateCss_string {| tagIconPairs := pairs |}
      = Ok (suppress +:+ sizes +:+ icon_rule).
Proof.
  split_and!; [by vm_compute | by vm_compute |].
  exists (slice (emitted after_body {| tag := "task/inbox"; icon := "📥" |}) 0 (-2)
          +:+ size_rule
          +:+ slice (emitted active_body {| tag := "task/inbox"; icon := "📥" |}) 0 (-2)
          +:+ size_rule).
  by vm_compute.
Qed.

(** C5: when the name segment of a pair of the list contains an
    underscore and the generation produces an output, the output is the
    four blocks one after the other, and each of the three selector
    blocks contains the two sibling selectors of the pair, one after the
    other in its selector list: plain in the suppress block, with :after
    in the second block, under .cm-active in the third. *)
Theorem underscore_sibling_selectors (pairs : list TagIconPair)
    (pair : TagIconPair) (c n : string) (rest : list string) (out : string) :
  pair ∈ pairs →
  split (tag pair) "/" = c :: n :: rest →
  includes n "_" = true →
  generateCss_string {| tagIconPairs := pairs |} = Ok out →
  ∃ b1 b2 b3 b4,
    suppress_part pairs "" = Ok b1 ∧ after_part pairs "" = Ok b2
    ∧ active_part pairs "" = Ok b3 ∧ icon_part pairs "" = Ok b4
    ∧ out = b1 +:+ b2 +:+ b3 +:+ b4
    ∧ includes b1
        (".cm-tag-" +:+ c +:+ n +:+ " + span.cm-hashtag," +:+ nl
         +:+ ".cm-tag-" +:+ c +:+ n +:+ " + span.cm-hashtag + .cm-hashtag")
      = true
    ∧ includes b2
        (".cm-tag-" +:+ c +:+ n +:+ " + span.cm-hashtag:after," +:+ nl
         +:+ ".cm-tag-" +:+ c +:+ n
         +:+ " + span.cm-hashtag + .cm-hashtag:after")
      = true
    ∧ includes b3
        (".cm-active .cm-tag-" +:+ c +:+ n +:+ " + span.cm-hashtag," +:+ nl
         +:+ ".cm-active .cm-tag-" +:+ c +:+ n
         +:+ " + span.cm-hashtag + .cm-hashtag")
      = true.
Proof.
  intros Hin Hsplit Hunder Hout.
  assert (pairs ≠ []) as Hne by (by intros ->; apply not_elem_of_nil in Hin).
  pose proof (generateCss_string_ok _ _ Hout) as Hall.
  rewrite generateCss_string_layout in Hout by done.
  injection Hout as <-.
  exists (slice (join_all (emitted suppress_body <$> pairs)) 0 (-2)
          +:+ suppress_rule),
         (slice (join_all (emitted after_body <$> pairs)) 0 (-2) +:+ size_rule),
         (slice (join_all (emitted active_body <$> pairs)) 0 (-2) +:+ size_rule),
         (join_all (emitted icon_body <$> pairs)).
  rewrite suppress_part_layout, after_part_layout, active_part_layout,
    icon_part_layout by done.
  split_and!; try reflexivity.
  - unfold layout. by rewrite ?app_assoc.
  - destruct (join_all_split (emitted suppress_body) pair pairs Hin)
      as (before & after & ->).
    rewrite (suppress_emitted_underscore pair c n rest) by done.
    apply includes_in_block.
  - destruct (join_all_split (emitted after_body) pair pairs Hin)
      as (before & after & ->).
    rewrite (after_emitted_underscore pair c n rest) by done.
    apply includes_in_block.
  - destruct (join_all_split (emitted active_body) pair pairs Hin)
      as (before & after & ->).
    rewrite (active_emitted_underscore pair c n rest) by done.
    apply includes_in_block.
Qed.

Lemma underscore_sibling_selectors_witness :
  ∃ b1 b2 b3 b4,
    suppress_part [{| tag := "status/in_progress"; icon := "🔄" |}] "" = Ok b1
    ∧ after_part [{| tag := "status/in_progress"; icon := "🔄" |}] "" = Ok b2
    ∧ active_part [{| tag := "status/in_progress"; icon := "🔄" |}] "" = Ok b3
    ∧ icon_part [{| tag := "status/in_progress"; icon := "🔄" |}] "" = Ok b4
    ∧ layout
        (emitted suppress_body <$> [{| tag := "status/in_progress"; icon := "🔄" |}])
        (emitted after_body <$> [{| tag := "status/in_progress"; icon := "🔄" |}])
        (emitted active_body <$> [{| tag := "status/in_progress"; icon := "🔄" |}])
        (emitted icon_body <$> [{| tag := "status/in_progress"; icon := "🔄" |}])
      = b1 +:+ b2 +:+ b3 +:+ b4
    ∧ includes b1
        (".cm-tag-" +:+ "status" +:+ "in_progress" +:+ " + span.cm-hashtag," +:+ nl
         +:+ ".cm-tag-" +:+ "status" +:+ "in_progress"
         +:+ " + span.cm-hashtag + .cm-hashtag")
      = true
    ∧ includes b2
        (".cm-tag-" +:+ "status" +:+ "in_progress"
         +:+ " + span.cm-hashtag:after," +:+ nl
         +:+ ".cm-tag-" +:+ "status" +:+ "in_progress"
         +:+ " + span.cm-hashtag + .cm-hashtag:after")
      = true
    ∧ includes b3
        (".cm-active .cm-tag-" +:+ "status" +:+ "in_progress"
         +:+ " + span.cm-hashtag," +:+ nl
         +:+ ".cm-active .cm-tag-" +:+ "status" +:+ "in_progress"
         +:+ " + span.cm-hashtag + .cm-hashtag")
      = true.
Proof.
  apply (underscore_sibling_selectors
           [{| tag := "status/in_progress"; icon := "🔄" |}]
           {| tag := "status/in_progress"; icon := "🔄" |}
           "status" "in_progress" []).
  - apply list_elem_of_here.
  - reflexivity.
  - reflexivity.
  - apply generateCss_string_layout; [done|].
    repeat constructor. by exists "in_progress".
Defined.

(** C7: the output lays the texts of the pairs out in the order of the
    list, in the three selector blocks and in the block of the icon
    rules; exchanging the pairs at two positions of the list yields the
    output in which, in each of the four blocks, the texts of these two
    pairs are exchanged and nothing else moves. *)
Theorem generateCss_string_transpose (pairs : list TagIconPair) (i j : nat)
    (out : string) :
  (i < length pairs)%nat → (j < length pairs)%nat →
  generateCss_string {| tagIconPairs := pairs |} = Ok out →
  out = layout (emitted suppress_body <$> pairs) (emitted after_body <$> pairs)
               (emitted active_body <$> pairs) (emitted icon_body <$> pairs)
  ∧ generateCss_string {| tagIconPairs := transpose i j pairs |}
    = Ok (layout (transpose i j (emitted suppress_body <$> pairs))
                 (transpose i j (emitted after_body <$> pairs))
                 (transpose i j (emitted active_body <$> pairs))
                 (transpose i j (emitted icon_body <$> pairs))).
Proof.
  intros Hi Hj Hout.
  assert (pairs ≠ []) as Hne by (intros ->; simpl in Hi; lia).
  pose proof (generateCss_string_ok _ _ Hout) as Hall.
  rewrite generateCss_string_layout in Hout by done.
  injection Hout as <-. split; [done|].
  rewrite !transpose_fmap. apply generateCss_string_layout.
  - intros Hnil. apply (f_equal length) in Hnil.
    rewrite transpose_length in Hnil. simpl in Hnil. lia.
  - by apply transpose_Forall.
Qed.

Lemma generateCss_string_transpose_witness :
  generateCss_string
    {| tagIconPairs :=
         transpose 0 2 [{| tag := "a/b"; icon := "X" |};
                        {| tag := "c/d_e"; icon := "Y" |};
                        {| tag := "f/g"; icon := "Z" |}] |}
  = generateCss_string
      {| tagIconPairs := [{| tag := "f/g"; icon := "Z" |};
                          {| tag := "c/d_e"; icon := "Y" |};
                          {| tag := "a/b"; icon := "X" |}] |}.
Proof.
  edestruct (generateCss_string_transpose
               [{| tag := "a/b"; icon := "X" |};
                {| tag := "c/d_e"; icon := "Y" |};
                {| tag := "f/g"; icon := "Z" |}] 0 2) as [_ H].
  - simpl; lia.
  - simpl; lia.
  - apply generateCss_string_layout; [done|].
    repeat constructor; by eexists.
  - rewrite H. by vm_compute.
Defined.

End GeneratorClaims.

(** ** The file operations *)

Section HostClaims.
Context {vault : Type}.
Variable join : string → string → string.
Variable adapter_mkdir : string → vault → result unit * vault.
Variable adapter_write : string → string → vault → result unit * vault.

Local Abbreviation run := (generateCss join adapter_mkdir adapter_write).
Local Abbreviation folder := (snippetsFolder join).
Local Abbreviation path := (cssPath join).
Local Abbreviation calls_of := (calls_of join adapter_mkdir adapter_write).

(** One run of [generateCss], case by case. *)
Lemma generateCss_run (this : plugin) (w : world (vault := vault)) :
  match generateCss_string (settings this) with
  | Throw e => run this w = (Throw e, w)
  | Ok css =>
      match adapter_mkdir (folder this) (files w) with
      | (Throw e, v1) =>
          run this w
          = (Ok (), World v1 (calls w ++ [CallMkdir (folder this)])
                      (console w ++ [ConsoleError "Error writing CSS file:" e]))
      | (Ok _, v1) =>
          match adapter_write (path this) css v1 with
          | (Throw e, v2) =>
              run this w
              = (Ok (), World v2
                          (calls w ++ [CallMkdir (folder this);
                                       CallWrite (path this) css])
                          (console w
                           ++ [ConsoleError "Error writing CSS file:" e]))
          | (Ok _, v2) =>
              run this w
              = (Ok (), World v2
                          (calls w ++ [CallMkdir (folder this);
                                       CallWrite (path this) css])
                          (console w
                           ++ [ConsoleLog
                                 "CSS has been written to tags.css in the snippets folder"]))
          end
      end
  end.
Proof.
  unfold generateCss, io_bind, lift, try_catch, mkdir, write,
    console_log, console_error.
  destruct (generateCss_string (settings this)) as [css|e]; [|done].
  destruct (adapter_mkdir (folder this) (files w)) as [[[]|e] v1]; simpl; [|done].
  destruct (adapter_write (path this) css v1) as [[[]|e] v2]; simpl;
    by rewrite <- (assoc_L (++)).
Qed.

Lemma calls_of_write (this : plugin) (w : world (vault := vault))
    (p d : string) :
  CallWrite p d ∈ calls_of this w →
  p = path this ∧ generateCss_string (settings this) = Ok d.
Proof.
  unfold calls_of. pose proof (generateCss_run this w) as Hrun.
  destruct (generateCss_string (settings this)) as [css|e].
  - destruct (adapter_mkdir (folder this) (files w)) as [[[]|e] v1].
    + destruct (adapter_write (path this) css v1) as [[[]|e] v2];
        rewrite Hrun; simpl; rewrite drop_app_length;
        intros Hin; apply elem_of_cons in Hin as [?|Hin]; try done;
        apply list_elem_of_singleton in Hin; by simplify_eq.
    + rewrite Hrun. simpl. rewrite drop_app_length.
      intros Hin. by apply list_elem_of_singleton in Hin.
  - rewrite Hrun. simpl. rewrite drop_all. by intros ?%not_elem_of_nil.
Qed.

(** C6: the text handed to the file sink depends on the pair list alone.
    Whatever the state of the host at two runs of [generateCss] on the
    same settings (the second run may start where the first one ended),
    a write of the one and a write of the other carry the same bytes to
    the same path, and these bytes are the string the generator builds
    from the list. *)
Theorem generateCss_deterministic (this : plugin)
    (w1 w2 : world (vault := vault)) (path1 data1 path2 data2 : string) :
  CallWrite path1 data1 ∈ calls_of this w1 →
  CallWrite path2 data2 ∈ calls_of this w2 →
  data1 = data2 ∧ path1 = path2
  ∧ generateCss_string (settings this) = Ok data1.
Proof.
  intros [-> H1]%calls_of_write [-> H2]%calls_of_write.
  split_and!; [congruence | done | done].
Qed.

(** C8: when the string is built and then the directory creation fails,
    or the directory creation succeeds and the write fails, [generateCss]
    completes normally; the console receives exactly one more entry, the
    error with its message; the adapter has been called once for the
    directory and, if that succeeded, once for the file, and never
    again. *)
Theorem file_failure_swallowed (this : plugin) (w : world (vault := vault))
    (css : string) (e : js_error) :
  generateCss_string (settings this) = Ok css →
  (adapter_mkdir (folder this) (files w)).1 = Throw e
  ∨ ((adapter_mkdir (folder this) (files w)).1 = Ok ()
     ∧ (adapter_write (path this) css
          (adapter_mkdir (folder this) (files w)).2).1 = Throw e) →
  ∃ w',
    run this w = (Ok (), w')
    ∧ console w' = console w ++ [ConsoleError "Error writing CSS file:" e]
    ∧ calls w'
      = calls w
        ++ CallMkdir (folder this)
           :: (if is_ok (adapter_mkdir (folder this) (files w)).1
               then [CallWrite (path this) css] else []).
Proof.
  intros Hcss Hfail. pose proof (generateCss_run this w) as Hrun.
  rewrite Hcss in Hrun.
  destruct (adapter_mkdir (folder this) (files w)) as [[[]|e1] v1];
    simpl in *.
  - destruct Hfail as [?|[_ Hwrite]]; [done|].
    destruct (adapter_write (path this) css v1) as [[[]|e2] v2];
      simpl in *; [done|].
    injection Hwrite as ->. by eexists.
  - destruct Hfail as [[= ->]|[? _]]; [|done]. by eexists.
Qed.

End HostClaims.

Lemma generateCss_deterministic_witness :
  ExampleHost.css = ExampleHost.css
  ∧ ExampleHost.join (ExampleHost.join ".obsidian" "snippets") "tags.css"
    = ExampleHost.join (ExampleHost.join ".obsidian" "snippets") "tags.css"
  ∧ generateCss_string (settings (ExampleHost.this ".obsidian"))
    = Ok ExampleHost.css.
Proof.
  apply (generateCss_deterministic ExampleHost.join ExampleHost.adapter_mkdir
           ExampleHost.adapter_write (ExampleHost.this ".obsidian")
           ExampleHost.start (ExampleHost.run ".obsidian" ExampleHost.start).2).
  - vm_compute. apply list_elem_of_further, list_elem_of_here.
  - vm_compute. apply list_elem_of_further, list_elem_of_here.
Defined.

Lemma file_failure_swallowed_witness :
  ∃ w',
    ExampleHost.run "/readonly" ExampleHost.start = (Ok (), w')
    ∧ console w'
      = [ConsoleError "Error writing CSS file:" (HostError "EACCES")]
    ∧ calls w' = [CallMkdir "/readonly/snippets"].
Proof.
  apply (file_failure_swallowed ExampleHost.join ExampleHost.adapter_mkdir
           ExampleHost.adapter_write (ExampleHost.this "/readonly")
           ExampleHost.start ExampleHost.css (HostError "EACCES")).
  - by vm_compute.
  - left. by vm_compute.
Defined.

(** ** Loading the settings *)

Section PersistClaims.
Import Persist.

Lemma set_property_plain (key : string) (v : value) (o : object) :
  key ≠ "__proto__" →
  set_property key v o = Object (proto o) (<[key := v]> (own o)).
Proof. intros Hkey. unfold set_property. by rewrite decide_False. Qed.

(** Assigning [__proto__] and assigning another key do not see each
    other. *)
Lemma set_property_proto_insert (key : string) (x v : value)
    (p : prototype) (m : gmap string value) :
  key ≠ "__proto__" →
  set_property "__proto__" v (Object p (<[key := x]> m))
  = set_property key x (set_property "__proto__" v (Object p m)).
Proof.
  intros Hkey. rewrite (set_property_plain key) by done.
  unfold set_property. rewrite decide_True by done. simpl.
  rewrite lookup_insert_ne by done.
  destruct (bool_decide (m !! "__proto__" = None)); simpl.
  - destruct (reaches_setter p); simpl.
    + by destruct v.
    + by rewrite insert_insert_ne.
  - by rewrite insert_insert_ne.
Qed.

(** One source of [Object.assign], whatever the order of its keys: every
    key but [__proto__] becomes an own property of the target, and
    [__proto__], when the source has it, is assigned once. *)
Lemma assign_source (t : object) (m : gmap string value) :
  map_fold set_property t m
  = let t' := Object (proto t) (delete "__proto__" m ∪ own t) in
    match m !! "__proto__" with
    | Some v => set_property "__proto__" v t'
    | None => t'
    end.
Proof.
  apply (map_fold_weak_ind (λ r m,
    r = let t' := Object (proto t) (delete "__proto__" m ∪ own t) in
        match m !! "__proto__" with
        | Some v => set_property "__proto__" v t'
        | None => t'
        end)); clear m.
  - simpl. rewrite lookup_empty, delete_empty, (left_id_L ∅ (∪)).
    by destruct t.
  - intros key x m r Hfresh ->. simpl.
    destruct (decide (key = "__proto__")) as [->|Hkey].
    + by rewrite Hfresh, lookup_insert_eq, delete_insert_eq.
    + rewrite lookup_insert_ne, delete_insert_ne by done.
      rewrite <- insert_union_l.
      destruct (m !! "__proto__") as [v|].
      * by rewrite set_property_proto_insert.
      * by rewrite set_property_plain.
Qed.

(** The settings after loading, in closed form. *)
Lemma loadSettings_closed (data : value) :
  loadSettings data
  = let t := Object ObjectPrototype
               (delete "__proto__" (own_props data)
                ∪ {[ "tagIconPairs" := VArray [] ]}) in
    match own_props data !! "__proto__" with
    | Some v => set_prototype v t
    | None => t
    end.
Proof.
  unfold loadSettings, assign. simpl.
  rewrite (assign_source (Object ObjectPrototype ∅)). simpl.
  rewrite (right_id_L ∅ (∪)), assign_source. simpl.
  destruct (own_props data !! "__proto__") as [v|]; [|done].
  unfold set_property. simpl.
  rewrite bool_decide_true; [done|].
  rewrite lookup_union, lookup_delete_eq. done.
Qed.

Lemma loadSettings_own (data : value) :
  own (loadSettings data)
  = delete "__proto__" (own_props data) ∪ {[ "tagIconPairs" := VArray [] ]}.
Proof.
  rewrite loadSettings_closed. simpl.
  destruct (own_props data !! "__proto__") as [v|]; [|done].
  by destruct v.
Qed.

Lemma pretty_N_go_digit_first (x : N) (s : string) :
  digit_first s → digit_first (pretty_N_go x s).
Proof.
  revert s. induction (N.lt_wf_0 x) as [x _ IH]; intros s Hs.
  assert (x = 0 ∨ 0 < x)%N as [->|Hx] by lia.
  - by rewrite pretty_N_go_0.
  - rewrite pretty_N_go_step by done. apply IH.
    + by apply N.div_lt.
    + by eexists _, _.
Qed.

Lemma pretty_nat_digit_first (i : nat) : digit_first (pretty i).
Proof.
  unfold pretty, pretty_nat, pretty, pretty_N.
  destruct (decide (N.of_nat i = 0%N)) as [_|Hi].
  - by exists 0%N, "".
  - rewrite pretty_N_go_step by lia. apply pretty_N_go_digit_first.
    by eexists _, _.
Qed.

Lemma indexed_not_digit (vs : list value) (key : string) :
  ¬ digit_first key → indexed vs !! key = None.
Proof.
  intros Hkey. unfold indexed. apply not_elem_of_list_to_map_1.
  intros Hin. apply Hkey.
  apply list_elem_of_fmap in Hin as ([k v] & -> & Hin).
  apply elem_of_lookup_imap in Hin as (i & w & [= -> ->] & _).
  apply pretty_nat_digit_first.
Qed.

Lemma tagIconPairs_not_digit : ¬ digit_first "tagIconPairs".
Proof.
  intros (d & rest & [= Hd _]). unfold pretty_N_char in Hd.
  by repeat case_match.
Qed.

Lemma own_props_field (data : value) :
  own_props data !! "tagIconPairs" = persisted_field data "tagIconPairs".
Proof.
  destruct data; simpl; try done;
    apply indexed_not_digit, tagIconPairs_not_digit.
Qed.

(** C9: the settings in memory are the defaults with the persisted blob
    laid over them, property by property and without looking inside the
    values. For a persisted object, its own properties are those of the
    blob (a [__proto__] key apart, which [Object.assign] hands to the
    prototype setter) over the default tagIconPairs; for every persisted
    value, the property tagIconPairs is the one the persisted value holds
    when it holds one, the empty list otherwise; and a persisted value
    that is absent or null gives exactly the defaults. *)
Theorem loadSettings_merge (data : value) (props : gmap string value) :
  own (loadSettings (VObject props))
  = delete "__proto__" props ∪ {[ "tagIconPairs" := VArray [] ]}
  ∧ own (loadSettings data) !! "tagIconPairs"
    = Some (default (VArray []) (persisted_field data "tagIconPairs"))
  ∧ loadSettings VNull
    = Object ObjectPrototype {[ "tagIconPairs" := VArray [] ]}
  ∧ loadSettings VUndefined
    = Object ObjectPrototype {[ "tagIconPairs" := VArray [] ]}.
Proof.
  split_and!.
  - apply loadSettings_own.
  - rewrite loadSettings_own, lookup_union, lookup_delete_ne by done.
    rewrite own_props_field, lookup_singleton_eq.
    by destruct (persisted_field data "tagIconPairs").
  - rewrite loadSettings_closed. simpl.
    by rewrite lookup_empty, delete_empty, (left_id_L ∅ (∪)).
  - rewrite loadSettings_closed. simpl.
    by rewrite lookup_empty, delete_empty, (left_id_L ∅ (∪)).
Qed.

End PersistClaims.

(** ** Moving rows *)

Section TabClaims.
Import Tab.

Lemma get_lookup (arr : array) (i : nat) :
  (i < length arr)%nat → Some (get arr i) = arr !! i.
Proof.
  intros Hi. unfold get.
  by destruct (lookup_lt_is_Some_2 arr i Hi) as [x ->].
Qed.

Lemma set_in_range (arr : array) (i : nat) (v : option TagIconPair) :
  (i < length arr)%nat → set arr i v = <[i := v]> arr.
Proof. intros Hi. unfold set. by rewrite decide_True. Qed.

(** The two cells at [i] and [j] exchanged by the three assignments
    through [temp]. *)
Lemma exchange (arr : array) (i j : nat) :
  (i < length arr)%nat → (j < length arr)%nat → i ≠ j →
  let arr' := set (set arr i (get arr j)) j (get arr i) in
  length arr' = length arr
  ∧ arr' !! i = arr !! j ∧ arr' !! j = arr !! i
  ∧ ∀ k, k ≠ i → k ≠ j → arr' !! k = arr !! k.
Proof.
  intros Hi Hj Hne. simpl.
  rewrite (set_in_range arr i) by done.
  rewrite set_in_range by (by rewrite length_insert).
  split_and!.
  - by rewrite !length_insert.
  - rewrite list_lookup_insert_ne by done.
    rewrite list_lookup_insert_eq by done. by apply get_lookup.
  - rewrite list_lookup_insert_eq by (by rewrite length_insert).
    by apply get_lookup.
  - intros k Hki Hkj. by rewrite !list_lookup_insert_ne.
Qed.

(** C10: on the row [i] of an array, "Move up" does nothing on the first
    row and otherwise exchanges the rows [i - 1] and [i]; "Move down" does
    nothing on the last row and otherwise exchanges the rows [i] and
    [i + 1]. An exchange keeps the length and every other row. *)
Theorem move_rows (arr : array) (i : nat) :
  (i < length arr)%nat →
  move_up 0 arr = arr
  ∧ ((0 < i)%nat →
     length (move_up i arr) = length arr
     ∧ move_up i arr !! (i - 1)%nat = arr !! i
     ∧ move_up i arr !! i = arr !! (i - 1)%nat
     ∧ ∀ k, k ≠ (i - 1)%nat → k ≠ i → move_up i arr !! k = arr !! k)
  ∧ move_down (length arr - 1) arr = arr
  ∧ ((i < length arr - 1)%nat →
     length (move_down i arr) = length arr
     ∧ move_down i arr !! i = arr !! (i + 1)%nat
     ∧ move_down i arr !! (i + 1)%nat = arr !! i
     ∧ ∀ k, k ≠ i → k ≠ (i + 1)%nat → move_down i arr !! k = arr !! k).
Proof.
  intros Hi. split_and!.
  - done.
  - intros Hpos. unfold move_up. rewrite decide_True by done.
    destruct (exchange arr (i - 1) i) as (Hlen & Ha & Hb & Hrest);
      [lia | done | lia |].
    simpl in *. split_and!; auto.
  - unfold move_down. rewrite decide_False; [done|lia].
  - intros Hlast. unfold move_down. rewrite decide_True by lia.
    destruct (exchange arr (i + 1) i) as (Hlen & Ha & Hb & Hrest);
      [lia | done | lia |].
    simpl in *. split_and!; auto.
Qed.

Lemma move_rows_witness :
  let a := Some {| tag := "a/b"; icon := "X" |} in
  let b := Some {| tag := "c/d"; icon := "Y" |} in
  let c := Some {| tag := "e/f"; icon := "Z" |} in
  move_up 0 [a; b; c] = [a; b; c]
  ∧ move_up 1 [a; b; c] !! 0%nat = Some b
  ∧ move_up 1 [a; b; c] !! 1%nat = Some a
  ∧ move_down 2 [a; b; c] = [a; b; c]
  ∧ move_down 1 [a; b; c] !! 1%nat = Some c
  ∧ move_down 1 [a; b; c] !! 2%nat = Some b.
Proof.
  intros a b c.
  destruct (move_rows [a; b; c] 1 ltac:(simpl; lia))
    as (Hfirst & Hup & Hlast & Hdown).
  destruct (Hup ltac:(lia)) as (_ & Hu1 & Hu2 & _).
  destruct (Hdown ltac:(simpl; lia)) as (_ & Hd1 & Hd2 & _).
  split_and!; [exact Hfirst | exact Hu1 | exact Hu2 | exact Hlast
              | exact Hd1 | exact Hd2].
Defined.

End TabClaims.

(** * Further properties *)

(** ** Splitting a tag *)

Section SplitFacts.
Import Js.
Import Stdlib.Strings.Ascii.

Lemma includes_slash_cons (c : Ascii.ascii) (s : string) :
  includes (String c s) "/"
  = if decide ("/"%char = c) then true else includes s "/".
Proof.
  rewrite includes_unfold. simpl.
  destruct (decide ("/"%char = c)); [by destruct s|done].
Qed.

Lemma rev_app_app (a b t : string) :
  String.rev_app a b +:+ t = String.rev_app a (b +:+ t).
Proof. revert b. induction a as [|c a IH]; intros b; [done|]. simpl. by rewrite IH. Qed.

Lemma rev_cons_app (c : Ascii.ascii) (cur s : string) :
  String.rev (String c cur) +:+ s = String.rev cur +:+ String c s.
Proof. unfold String.rev. simpl. by rewrite !rev_app_app. Qed.

Lemma split_go_no_slash (cur s : string) :
  includes s "/" = false → split_go "/" 0 cur s = [String.rev cur +:+ s].
Proof.
  revert cur. induction s as [|c s IH]; intros cur Hs.
  - simpl. by rewrite app_nil_r.
  - rewrite includes_slash_cons in Hs. simpl.
    destruct (decide ("/"%char = c)); [done|].
    by rewrite IH, rev_cons_app.
Qed.

Lemma split_go_slash (cur a b : string) :
  includes a "/" = false →
  split_go "/" 0 cur (a +:+ "/" +:+ b)
  = (String.rev cur +:+ a) :: split_go "/" 0 "" b.
Proof.
  revert cur. induction a as [|c a IH]; intros cur Ha.
  - rewrite app_nil_l, app_nil_r. simpl. rewrite !app_nil_l.
    by destruct b.
  - rewrite includes_slash_cons in Ha. rewrite app_cons. simpl.
    destruct (decide ("/"%char = c)); [done|].
    by rewrite IH, rev_cons_app.
Qed.

Lemma includes_slash_split (s : string) :
  includes s "/" = true →
  ∃ a b, s = a +:+ "/" +:+ b ∧ includes a "/" = false.
Proof.
  induction s as [|c s IH]; [done|].
  rewrite includes_slash_cons.
  destruct (decide ("/"%char = c)) as [<-|Hc].
  - intros _. by exists "", s.
  - intros (a & b & -> & Ha)%IH. exists (String c a), b. split; [done|].
    rewrite includes_slash_cons. by rewrite decide_False.
Qed.

Lemma split_no_slash (s : string) :
  includes s "/" = false → split s "/" = [s].
Proof. intros Hs. unfold split. simpl. by rewrite split_go_no_slash. Qed.

Lemma split_slash (a b : string) :
  includes a "/" = false → split (a +:+ "/" +:+ b) "/" = a :: split b "/".
Proof. intros Ha. unfold split. simpl. by rewrite split_go_slash. Qed.

Lemma split_not_empty (s : string) : ∃ x xs, split s "/" = x :: xs.
Proof.
  destruct (includes s "/") eqn:Hs.
  - destruct (includes_slash_split s Hs) as (a & b & -> & Ha).
    rewrite split_slash by done. by eexists _, _.
  - rewrite split_no_slash by done. by eexists _, _.
Qed.

Lemma has_name_includes (pair : TagIconPair) :
  has_name pair ↔ includes (tag pair) "/" = true.
Proof.
  unfold has_name, name. split.
  - intros Hname. destruct (includes (tag pair) "/") eqn:Hs; [done|].
    rewrite split_no_slash in Hname by done. by destruct Hname.
  - intros (a & b & -> & Ha)%includes_slash_split.
    rewrite split_slash by done.
    destruct (split_not_empty b) as (x & xs & ->). by eexists.
Qed.

End SplitFacts.

(** ** More on the generated stylesheet *)

Section GeneratorMore.
Import Js.

Lemma forallb_has_name (pairs : list TagIconPair) :
  forallb (λ pair, includes (tag pair) "/") pairs = true
  ↔ Forall has_name pairs.
Proof.
  induction pairs as [|p pairs IH]; simpl.
  - split; [by constructor|done].
  - rewrite andb_true_iff, Forall_cons, IH, has_name_includes. done.
Qed.

(** X1: the generation produces a stylesheet exactly when every tag of the
    list contains the separator; as soon as one tag has none, it throws a
    [TypeError], wherever that pair stands in the list. *)
Theorem generateCss_string_separator (pairs : list TagIconPair) :
  if forallb (λ pair, includes (tag pair) "/") pairs
  then is_ok (generateCss_string {| tagIconPairs := pairs |}) = true
  else generateCss_string {| tagIconPairs := pairs |} = Throw TypeError.
Proof.
  destruct (forallb _ pairs) eqn:Hall.
  - apply forallb_has_name in Hall.
    destruct pairs as [|p pairs]; [done|].
    by rewrite generateCss_string_layout.
  - apply generateCss_string_throws. rewrite <- forallb_has_name.
    by rewrite Hall.
Qed.

Lemma split_two_segments (t c n extra : string) :
  includes c "/" = false → includes n "/" = false →
  t = c +:+ "/" +:+ n ∨ t = c +:+ "/" +:+ n +:+ "/" +:+ extra →
  ∃ more, split t "/" = c :: n :: more.
Proof.
  intros Hc Hn [-> | ->]; rewrite split_slash by done.
  - rewrite split_no_slash by done. by eexists.
  - rewrite split_slash by done. by eexists.
Qed.

(** X2: a tag is cut at its first two separators: what stands before the
    first one is the category, what stands between the first and the
    second (or the end) is the name, and whatever follows a second
    separator takes no part in [cleanTag]. *)
Theorem tag_segments (pair : TagIconPair) (c n extra : string) :
  includes c "/" = false → includes n "/" = false →
  tag pair = c +:+ "/" +:+ n ∨ tag pair = c +:+ "/" +:+ n +:+ "/" +:+ extra →
  category pair = Some c ∧ name pair = Some n ∧ cleanTag pair = c +:+ n.
Proof.
  intros Hc Hn Htag.
  destruct (split_two_segments _ c n extra Hc Hn Htag) as [more Hsplit].
  unfold cleanTag, category, name. by rewrite Hsplit.
Qed.

Lemma tag_segments_witness :
  category {| tag := "area/work/home"; icon := "W" |} = Some "area"
  ∧ name {| tag := "area/work/home"; icon := "W" |} = Some "work"
  ∧ cleanTag {| tag := "area/work/home"; icon := "W" |} = "area" +:+ "work".
Proof.
  apply (tag_segments {| tag := "area/work/home"; icon := "W" |}
           "area" "work" "home").
  - reflexivity.
  - reflexivity.
  - right. reflexivity.
Defined.

(** X3: what the loops emit for a pair whose tag is category/name, with or
    without further segments: the link selector carries the whole tag, the
    class selector the category and the name run together, and the two
    sibling selectors are there exactly when the name holds an underscore;
    the icon rule carries the icon as it is. *)
Theorem pair_selectors (pair : TagIconPair) (c n extra : string) :
  includes c "/" = false → includes n "/" = false →
  tag pair = c +:+ "/" +:+ n ∨ tag pair = c +:+ "/" +:+ n +:+ "/" +:+ extra →
  let href := ".tag[href=" +:+ dq +:+ "#" +:+ tag pair +:+ dq +:+ "]" in
  let cls := ".cm-tag-" +:+ c +:+ n in
  emitted suppress_body pair
  = href +:+ "," +:+ nl +:+ cls +:+ "," +:+ nl
    +:+ (if includes n "_"
         then cls +:+ " + span.cm-hashtag," +:+ nl
              +:+ cls +:+ " + span.cm-hashtag + .cm-hashtag," +:+ nl
         else "")
  ∧ emitted after_body pair
    = href +:+ ":after," +:+ nl +:+ cls +:+ ":after," +:+ nl
      +:+ (if includes n "_"
           then cls +:+ " + span.cm-hashtag:after," +:+ nl
                +:+ cls +:+ " + span.cm-hashtag + .cm-hashtag:after," +:+ nl
           else "")
  ∧ emitted active_body pair
    = ".cm-active " +:+ href +:+ "," +:+ nl
      +:+ ".cm-active " +:+ cls +:+ "," +:+ nl
      +:+ (if includes n "_"
           then ".cm-active " +:+ cls +:+ " + span.cm-hashtag," +:+ nl
                +:+ ".cm-active " +:+ cls
                +:+ " + span.cm-hashtag + .cm-hashtag," +:+ nl
           else "")
  ∧ emitted icon_body pair
    = href +:+ ":after," +:+ nl
      +:+ ".cm-hashtag-begin" +:+ cls +:+ ":after {" +:+ nl
      +:+ "  background-color: rgba(162, 93, 53, 0.1);" +:+ nl
      +:+ "  border: solid 1px rgba(209, 209, 209, 0.1);" +:+ nl
      +:+ "  border-radius: 3px;" +:+ nl
      +:+ "  content: " +:+ dq +:+ icon pair +:+ dq +:+ ";" +:+ nl
      +:+ "}" +:+ nl +:+ nl.
Proof.
  intros Hc Hn Htag.
  destruct (split_two_segments _ c n extra Hc Hn Htag) as [more Hsplit].
  unfold emitted, suppress_body, after_body, active_body, icon_body,
    cleanTag, category, name.
  rewrite Hsplit. simpl.
  destruct (includes n "_"); simpl; split_and!;
    by rewrite ?app_assoc, ?app_nil_r.
Qed.

Lemma pair_selectors_witness :
  emitted suppress_body {| tag := "status/in_progress/now"; icon := "P" |}
  = ".tag[href=" +:+ dq +:+ "#status/in_progress/now" +:+ dq +:+ "]," +:+ nl
    +:+ ".cm-tag-statusin_progress," +:+ nl
    +:+ ".cm-tag-statusin_progress + span.cm-hashtag," +:+ nl
    +:+ ".cm-tag-statusin_progress + span.cm-hashtag + .cm-hashtag," +:+ nl.
Proof.
  destruct (pair_selectors {| tag := "status/in_progress/now"; icon := "P" |}
              "status" "in_progress" "now") as (H & _).
  - reflexivity.
  - reflexivity.
  - right. reflexivity.
  - rewrite H. reflexivity.
Defined.

Lemma ends_comma_nl_app (a s : string) :
  ends_comma_nl s → ends_comma_nl (a +:+ s).
Proof. intros [z ->]. exists (a +:+ z). by rewrite app_assoc. Qed.

Lemma ends_comma_nl_here (z : string) : ends_comma_nl (z +:+ "," +:+ nl).
Proof. by exists z. Qed.

Ltac ends_comma :=
  rewrite ?app_assoc, ?app_nil_l;
  repeat first
    [ apply ends_comma_nl_here
    | by exists "]"
    | by exists "]:after"
    | by exists ":after"
    | by exists " + span.cm-hashtag + .cm-hashtag"
    | by exists " + span.cm-hashtag + .cm-hashtag:after"
    | apply ends_comma_nl_app ].

Ltac name_cases p :=
  destruct (name p) as [n|]; simpl; [destruct (includes n "_"); simpl|].

Lemma suppress_emitted_ends (p : TagIconPair) :
  has_name p → ends_comma_nl (emitted suppress_body p).
Proof.
  unfold emitted, suppress_body, has_name.
  name_cases p; intros [? ?]; try done; ends_comma.
Qed.

Lemma after_emitted_ends (p : TagIconPair) :
  has_name p → ends_comma_nl (emitted after_body p).
Proof.
  unfold emitted, after_body, has_name.
  name_cases p; intros [? ?]; try done; ends_comma.
Qed.

Lemma active_emitted_ends (p : TagIconPair) :
  has_name p → ends_comma_nl (emitted active_body p).
Proof.
  unfold emitted, active_body, has_name.
  name_cases p; intros [? ?]; try done; ends_comma.
Qed.

Lemma join_all_ends (f : TagIconPair → string) (pairs : list TagIconPair) :
  pairs ≠ [] → Forall (λ p, ends_comma_nl (f p)) pairs →
  ends_comma_nl (join_all (f <$> pairs)).
Proof.
  intros Hne Hall. induction Hall as [|p pairs Hp Hall IH]; [done|].
  simpl. destruct pairs as [|q pairs].
  - simpl. by rewrite app_nil_r.
  - by apply ends_comma_nl_app, IH.
Qed.

(** X4: on a list that is not empty and whose tags all hold the separator,
    each of the three selector loops leaves a text closed by a comma and a
    newline, and the [slice] after it removes exactly these two units: in
    the output every rule body follows the last selector of its list
    directly. *)
Theorem selector_lists_trimmed (pairs : list TagIconPair) :
  pairs ≠ [] →
  Forall (λ pair, includes (tag pair) "/" = true) pairs →
  ∃ z1 z2 z3,
    join_all (emitted suppress_body <$> pairs) = z1 +:+ "," +:+ nl
    ∧ join_all (emitted after_body <$> pairs) = z2 +:+ "," +:+ nl
    ∧ join_all (emitted active_body <$> pairs) = z3 +:+ "," +:+ nl
    ∧ generateCss_string {| tagIconPairs := pairs |}
      = Ok (z1 +:+ suppress_rule +:+ z2 +:+ size_rule +:+ z3 +:+ size_rule
            +:+ join_all (emitted icon_body <$> pairs)).
Proof.
  intros Hne Hall.
  assert (Forall has_name pairs) as Hnames.
  { eapply Forall_impl; [exact Hall|]. intros p. apply has_name_includes. }
  destruct (join_all_ends (emitted suppress_body) pairs Hne) as [z1 H1].
  { eapply Forall_impl; [exact Hnames|]. apply suppress_emitted_ends. }
  destruct (join_all_ends (emitted after_body) pairs Hne) as [z2 H2].
  { eapply Forall_impl; [exact Hnames|]. apply after_emitted_ends. }
  destruct (join_all_ends (emitted active_body) pairs Hne) as [z3 H3].
  { eapply Forall_impl; [exact Hnames|]. apply active_emitted_ends. }
  exists z1, z2, z3. split_and!; try done.
  rewrite generateCss_string_layout by done. unfold layout.
  by rewrite H1, H2, H3, !slice_comma_nl.
Qed.

Lemma selector_lists_trimmed_witness :
  ∃ z1 z2 z3,
    join_all (emitted suppress_body <$> ExampleHost.pairs) = z1 +:+ "," +:+ nl
    ∧ join_all (emitted after_body <$> ExampleHost.pairs) = z2 +:+ "," +:+ nl
    ∧ join_all (emitted active_body <$> ExampleHost.pairs) = z3 +:+ "," +:+ nl
    ∧ generateCss_string {| tagIconPairs := ExampleHost.pairs |}
      = Ok (z1 +:+ suppress_rule +:+ z2 +:+ size_rule +:+ z3 +:+ size_rule
            +:+ join_all (emitted icon_body <$> ExampleHost.pairs)).
Proof.
  apply (selector_lists_trimmed ExampleHost.pairs).
  - done.
  - repeat constructor.
Defined.

(** X5: a row that the "+" button has just added has the empty tag, and
    as long as a list ends with such a row the generation throws,
    whatever the other rows hold. *)
Theorem fresh_row_breaks_generation (pairs : list TagIconPair) :
  Tab.add_row (Tab.of_pairs pairs)
  = Tab.of_pairs (pairs ++ [{| tag := ""; icon := "" |}])
  ∧ generateCss_string
      {| tagIconPairs := pairs ++ [{| tag := ""; icon := "" |}] |}
    = Throw TypeError.
Proof.
  split.
  - unfold Tab.add_row, Tab.of_pairs. by rewrite fmap_app.
  - apply generateCss_string_throws. rewrite Forall_app, Forall_singleton.
    intros [_ Hname]. apply has_name_includes in Hname. done.
Qed.

End GeneratorMore.

(** ** More on the file operations *)

Section HostMore.
Context {vault : Type}.
Variable join : string → string → string.
Variable adapter_mkdir : string → vault → result unit * vault.
Variable adapter_write : string → string → vault → result unit * vault.

Local Abbreviation run := (generateCss join adapter_mkdir adapter_write).
Local Abbreviation folder := (snippetsFolder join).
Local Abbreviation path := (cssPath join).

(** X6: when the string is built and both file operations succeed,
    [generateCss] completes normally, having asked for the snippets folder
    first and then written the whole stylesheet to tags.css inside it; the
    vault is the one these two calls leave, and the console receives the
    confirmation and nothing else. *)
Theorem generateCss_success (this : plugin) (w : world (vault := vault))
    (css : string) (v1 v2 : vault) :
  generateCss_string (settings this) = Ok css →
  adapter_mkdir (folder this) (files w) = (Ok (), v1) →
  adapter_write (path this) css v1 = (Ok (), v2) →
  run this w
  = (Ok (),
     World v2
       (calls w ++ [CallMkdir (join (configDir this) "snippets");
                    CallWrite (join (join (configDir this) "snippets") "tags.css")
                              css])
       (console w
        ++ [ConsoleLog "CSS has been written to tags.css in the snippets folder"])).
Proof.
  intros Hcss Hmkdir Hwrite. pose proof (generateCss_run join adapter_mkdir
    adapter_write this w) as Hrun.
  by rewrite Hcss, Hmkdir, Hwrite in Hrun.
Qed.

(** X7: when a tag of the list has no separator, [generateCss] rejects
    with the [TypeError] and leaves the world as it found it: neither
    adapter method is called, no file is touched and nothing is logged,
    not even the error. *)
Theorem generateCss_rejects (this : plugin) (w : world (vault := vault))
    (pair : TagIconPair) :
  pair ∈ tagIconPairs (settings this) →
  Js.includes (tag pair) "/" = false →
  run this w = (Throw TypeError, w).
Proof.
  intros Hin Hno. pose proof (generateCss_run join adapter_mkdir
    adapter_write this w) as Hrun.
  destruct this as [[pairs] dir]. simpl in *.
  rewrite generateCss_string_throws in Hrun; [done|].
  intros Hall. rewrite Forall_forall in Hall.
  apply Hall, has_name_includes in Hin. congruence.
Qed.

(** X8: whatever the settings and the host, one run of [generateCss] calls
    the adapter at most twice, the directory creation coming first and the
    write, if any, second and aimed at tags.css in that directory; it
    leaves at most one entry on the console and never removes one. *)
Theorem generateCss_footprint (this : plugin) (w : world (vault := vault)) :
  ∃ css entries,
    calls (run this w).2 `prefix_of`
      calls w ++ [CallMkdir (folder this); CallWrite (path this) css]
    ∧ calls w `prefix_of` calls (run this w).2
    ∧ console (run this w).2 = console w ++ entries
    ∧ (length entries ≤ 1)%nat.
Proof.
  pose proof (generateCss_run join adapter_mkdir adapter_write this w) as Hrun.
  destruct (generateCss_string (settings this)) as [css|e].
  - destruct (adapter_mkdir (folder this) (files w)) as [[[]|e] v1].
    + destruct (adapter_write (path this) css v1) as [[[]|e] v2];
        rewrite Hrun; simpl; eexists css, [_];
        split_and!; try done; by apply prefix_app_r.
    + rewrite Hrun. simpl. exists "", [ConsoleError "Error writing CSS file:" e].
      split_and!; try done; [|by apply prefix_app_r].
      apply prefix_app, prefix_cons, prefix_nil.
  - rewrite Hrun. simpl. exists "", []. rewrite (right_id_L [] (++)).
    split_and!; try done; [by apply prefix_app_r|simpl; lia].
Qed.

End HostMore.

Lemma generateCss_success_witness :
  ExampleHost.run ".obsidian" ExampleHost.start
  = (Ok (),
     World [(".obsidian/snippets/tags.css", ExampleHost.css)]
       [CallMkdir ".obsidian/snippets";
        CallWrite ".obsidian/snippets/tags.css" ExampleHost.css]
       [ConsoleLog "CSS has been written to tags.css in the snippets folder"]).
Proof.
  apply (generateCss_success ExampleHost.join ExampleHost.adapter_mkdir
           ExampleHost.adapter_write (ExampleHost.this ".obsidian")
           ExampleHost.start ExampleHost.css []).
  - by vm_compute.
  - by vm_compute.
  - by vm_compute.
Defined.

Lemma generateCss_rejects_witness :
  generateCss ExampleHost.join ExampleHost.adapter_mkdir
    ExampleHost.adapter_write
    {| settings := {| tagIconPairs := [{| tag := "a/b"; icon := "X" |};
                                       {| tag := "inbox"; icon := "I" |}] |};
       configDir := ".obsidian" |}
    ExampleHost.start
  = (Throw TypeError, ExampleHost.start).
Proof.
  apply (generateCss_rejects ExampleHost.join ExampleHost.adapter_mkdir
           ExampleHost.adapter_write _ _ {| tag := "inbox"; icon := "I" |}).
  - apply list_elem_of_further, list_elem_of_here.
  - reflexivity.
Defined.

(** ** More on the rows of the settings tab *)

Section TabMore.
Import Tab.

Lemma get_middle (l1 l2 : array) (x : option TagIconPair) :
  get (l1 ++ x :: l2) (length l1) = x.
Proof. unfold get. by rewrite list_lookup_middle. Qed.

Lemma get_after (l : array) (k : nat) : get l (length l + k) = None.
Proof. unfold get. rewrite lookup_ge_None_2 by lia. done. Qed.

Lemma set_middle (l1 l2 : array) (x v : option TagIconPair) :
  set (l1 ++ x :: l2) (length l1) v = l1 ++ v :: l2.
Proof.
  unfold set. rewrite decide_True by (rewrite List.length_app; simpl; lia).
  rewrite insert_app_r_alt by lia. by rewrite Nat.sub_diag.
Qed.

Lemma get_second (l1 l2 : array) (a b : option TagIconPair) :
  get (l1 ++ a :: b :: l2) (S (length l1)) = b.
Proof.
  unfold get. rewrite lookup_app_r by lia.
  by replace (S (length l1) - length l1)%nat with 1%nat by lia.
Qed.

Lemma set_second (l1 l2 : array) (a x v : option TagIconPair) :
  set (l1 ++ a :: x :: l2) (S (length l1)) v = l1 ++ a :: v :: l2.
Proof.
  unfold set. rewrite decide_True by (rewrite List.length_app; simpl; lia).
  rewrite insert_app_r_alt by lia.
  by replace (S (length l1) - length l1)%nat with 1%nat by lia.
Qed.

Lemma move_up_adjacent (l1 l2 : array) (a b : option TagIconPair) :
  move_up (S (length l1)) (l1 ++ a :: b :: l2) = l1 ++ b :: a :: l2.
Proof.
  unfold move_up. rewrite decide_True by lia.
  replace (S (length l1) - 1)%nat with (length l1) by lia.
  by rewrite get_middle, get_second, set_middle, set_second.
Qed.

Lemma move_down_adjacent (l1 l2 : array) (a b : option TagIconPair) :
  move_down (length l1) (l1 ++ a :: b :: l2) = l1 ++ b :: a :: l2.
Proof.
  unfold move_down.
  rewrite decide_True by (rewrite List.length_app; simpl; lia).
  replace (length l1 + 1)%nat with (S (length l1)) by lia.
  by rewrite get_middle, get_second, set_second, set_middle.
Qed.

Lemma adjacent_rows (arr : array) (i : nat) :
  (S i < length arr)%nat →
  ∃ l1 a b l2, arr = l1 ++ a :: b :: l2 ∧ length l1 = i.
Proof.
  intros Hi.
  destruct (lookup_lt_is_Some_2 arr i ltac:(lia)) as [a Ha].
  destruct (lookup_lt_is_Some_2 arr (S i) Hi) as [b Hb].
  exists (take i arr), a, b, (drop (S (S i)) arr). split.
  - rewrite <- (take_drop_middle arr i a Ha) at 1. f_equal. f_equal.
    by apply drop_S.
  - rewrite length_take. lia.
Qed.

(** X9: "Move up" on the row below two neighbours and "Move down" on the
    row above them do the same thing: the two rows change places, the rows
    before and after them stay as they are, and no cell is lost, copied or
    emptied. *)
Theorem move_adjacent (l1 l2 : array) (a b : option TagIconPair) :
  move_up (S (length l1)) (l1 ++ a :: b :: l2) = l1 ++ b :: a :: l2
  ∧ move_down (length l1) (l1 ++ a :: b :: l2) = l1 ++ b :: a :: l2.
Proof. split; [apply move_up_adjacent | apply move_down_adjacent]. Qed.

(** X10: moving a row up and then down again, or down and then up again,
    gives the list back: after "Move up" on row [i] the row stands at
    [i - 1], and "Move down" there undoes the move. *)
Theorem move_round_trip (arr : array) (i : nat) :
  (S i < length arr)%nat →
  move_down i (move_up (S i) arr) = arr
  ∧ move_up (S i) (move_down i arr) = arr.
Proof.
  intros (l1 & a & b & l2 & -> & <-)%adjacent_rows.
  split; [by rewrite move_up_adjacent, move_down_adjacent
         | by rewrite move_down_adjacent, move_up_adjacent].
Qed.

Lemma move_round_trip_witness :
  let a := Some {| tag := "a/b"; icon := "X" |} in
  let b := Some {| tag := "c/d"; icon := "Y" |} in
  let c := Some {| tag := "e/f"; icon := "Z" |} in
  move_down 1 (move_up 2 [a; b; c]) = [a; b; c]
  ∧ move_up 2 (move_down 1 [a; b; c]) = [a; b; c].
Proof.
  intros a b c. apply (move_round_trip [a; b; c] 1). simpl. lia.
Defined.

(** X11: "Move up" with the index just past the last row, which a handler
    drawn before a removal still holds, does not leave the list alone: it
    empties the last cell and appends what it held, so the array grows by
    a cell that holds no pair. *)
Theorem move_up_past_end (l : array) (a : option TagIconPair) :
  move_up (length (l ++ [a])) (l ++ [a]) = l ++ [None; a].
Proof.
  rewrite List.length_app. simpl. unfold move_up.
  rewrite decide_True by lia.
  replace (length l + 1 - 1)%nat with (length l) by lia.
  rewrite get_middle.
  replace (length l + 1)%nat with (length (l ++ [a]) + 0)%nat at 1
    by (rewrite List.length_app; simpl; lia).
  rewrite get_after, set_middle.
  unfold set. rewrite decide_False by (rewrite List.length_app; simpl; lia).
  rewrite List.length_app. simpl.
  replace (length l + 1 - (length l + 1))%nat with 0%nat by lia.
  simpl. by rewrite <- (assoc_L (++)).
Qed.

(** X12: "Remove" on a row takes exactly this row out and closes the gap,
    keeping the order of the rows before and after it; with an index past
    the end it removes nothing. In particular, removing the row that "+"
    has just added gives the former list back. *)
Theorem remove_row_middle (l1 l2 : array) (x : option TagIconPair) (k : nat) :
  remove_row (length l1) (l1 ++ x :: l2) = l1 ++ l2
  ∧ remove_row (length l1 + k) l1 = l1
  ∧ remove_row (length l1) (add_row l1) = l1.
Proof.
  assert (∀ (m1 m2 : array) y, remove_row (length m1) (m1 ++ y :: m2) = m1 ++ m2)
    as Hmid.
  { intros m1 m2 y. unfold remove_row, splice.
    rewrite List.length_app.
    change (length (y :: m2)) with (S (length m2)).
    replace (Nat.min (length m1) (length m1 + S (length m2))) with (length m1)
      by lia.
    replace (Nat.min 1 (length m1 + S (length m2) - length m1)) with 1%nat
      by lia.
    rewrite take_app_length, drop_app_ge by lia.
    by replace (length m1 + 1 - length m1)%nat with 1%nat by lia. }
  split_and!.
  - apply Hmid.
  - unfold remove_row, splice.
    replace (Nat.min (length l1 + k) (length l1)) with (length l1) by lia.
    rewrite Nat.sub_diag. simpl. rewrite Nat.add_0_r.
    by rewrite take_ge, drop_ge, (right_id_L [] (++)) by lia.
  - unfold add_row. rewrite Hmid. by rewrite (right_id_L [] (++)).
Qed.

Lemma set_tag_middle (l1 l2 : array) (row : TagIconPair) (v : string) :
  set_tag (length l1) v (l1 ++ Some row :: l2)
  = Ok (l1 ++ Some {| tag := v; icon := icon row |} :: l2).
Proof.
  unfold set_tag. rewrite get_middle.
  rewrite insert_app_r_alt by lia. by rewrite Nat.sub_diag.
Qed.

Lemma set_icon_middle (l1 l2 : array) (row : TagIconPair) (v : string) :
  set_icon (length l1) v (l1 ++ Some row :: l2)
  = Ok (l1 ++ Some {| tag := tag row; icon := v |} :: l2).
Proof.
  unfold set_icon. rewrite get_middle.
  rewrite insert_app_r_alt by lia. by rewrite Nat.sub_diag.
Qed.

(** X13: typing in the tag field of a row replaces the tag of this row
    and nothing else: its icon, the other rows and the length stay; the
    icon field does the same for the icon. On a cell that holds no pair,
    or past the end of the list, the assignment throws a [TypeError]. *)
Theorem edit_row (l1 l2 : array) (row : TagIconPair) (v : string) (k : nat) :
  set_tag (length l1) v (l1 ++ Some row :: l2)
  = Ok (l1 ++ Some {| tag := v; icon := icon row |} :: l2)
  ∧ set_icon (length l1) v (l1 ++ Some row :: l2)
    = Ok (l1 ++ Some {| tag := tag row; icon := v |} :: l2)
  ∧ set_tag (length l1) v (l1 ++ None :: l2) = Throw TypeError
  ∧ set_icon (length l1) v (l1 ++ None :: l2) = Throw TypeError
  ∧ set_tag (length l1 + k) v l1 = Throw TypeError
  ∧ set_icon (length l1 + k) v l1 = Throw TypeError.
Proof.
  split_and!.
  - apply set_tag_middle.
  - apply set_icon_middle.
  - unfold set_tag. by rewrite get_middle.
  - unfold set_icon. by rewrite get_middle.
  - unfold set_tag. by rewrite get_after.
  - unfold set_icon. by rewrite get_after.
Qed.

(** X14: the two text fields of a row are independent: editing the tag
    and then the icon leaves the list in the same state as editing the
    icon and then the tag, and fails in the same way when the cell holds
    no pair. *)
Theorem edits_commute (arr : array) (i : nat) (t c : string) :
  (set_tag i t arr ≫= set_icon i c) = (set_icon i c arr ≫= set_tag i t).
Proof.
  unfold set_tag at 1, set_icon at 2.
  destruct (get arr i) as [row|] eqn:Hget; simpl; [|done].
  assert (i < length arr)%nat as Hi.
  { apply lookup_lt_is_Some. unfold get in Hget.
    destruct (arr !! i); [by eexists|done]. }
  unfold set_icon, set_tag, get.
  rewrite !list_lookup_insert_eq by done. simpl.
  by rewrite !list_insert_insert_eq.
Qed.

End TabMore.

(** ** More on loading the settings *)

Section PersistMore.
Import Persist.

(** X15: a persisted object comes back with all its properties but one,
    known to the plugin or not, and the only property loading adds is the
    empty tagIconPairs list, when the object has none. The exception is a
    [__proto__] key: it never becomes a property of the settings; its
    value becomes their prototype when it is an object, an array or null,
    and is dropped otherwise. *)
Theorem loadSettings_object (props : gmap string value) :
  own (loadSettings (VObject props))
  = match props !! "tagIconPairs" with
    | Some _ => delete "__proto__" props
    | None => <["tagIconPairs" := VArray []]> (delete "__proto__" props)
    end
  ∧ proto (loadSettings (VObject props))
    = match props !! "__proto__" with
      | Some (VObject p) => PersistedObject p
      | Some (VArray elems) => PersistedArray elems
      | Some VNull => NullPrototype
      | _ => ObjectPrototype
      end.
Proof.
  split.
  - rewrite loadSettings_own. simpl.
    destruct (props !! "tagIconPairs") as [v|] eqn:Hv.
    + apply map_eq. intros k. rewrite lookup_union.
      destruct (decide (k = "tagIconPairs")) as [->|Hk].
      * by rewrite lookup_delete_ne, Hv, lookup_singleton_eq.
      * rewrite lookup_singleton_ne; [|done].
        by destruct (delete "__proto__" props !! k).
    + rewrite insert_union_singleton_r; [done|].
      by rewrite lookup_delete_ne.
  - rewrite loadSettings_closed. simpl.
    destruct (props !! "__proto__") as [v|]; [|done]. by destruct v.
Qed.

(** X16: loading is idempotent: settings that were loaded, saved as they
    are and loaded again come back unchanged, whatever the first persisted
    value was. *)
Theorem loadSettings_reload (data : value) :
  own (loadSettings (VObject (own (loadSettings data))))
  = own (loadSettings data).
Proof.
  rewrite (loadSettings_own (VObject _)), loadSettings_own. simpl.
  rewrite delete_union, delete_delete_eq.
  rewrite (delete_id {[ "tagIconPairs" := VArray [] ]}) by done.
  rewrite <- (assoc_L (∪)).
  by rewrite (idemp_L (∪) {[ "tagIconPairs" := VArray [] ]}).
Qed.

End PersistMore.
